(* ===== verification/_CoqProject ===== *)
-Q . S2P
Prelude.v
SrcReducers.v
LibReducers.v
HandleChanges.v
Actions.v
Machine.v
App.v
Requests.v
Server.v
System.v
