(* ===== verification/Prelude.v ===== *)
(** * clone-serve: a verification development

    clone-serve lets a browser session submit a git URL; the server clones
    or fetches the repository and serves the resulting files.  Its core is
    a redux store whose state maps session ids to the status of each
    submitted repository, a reducer that computes the next state from an
    action, and a change handler that compares consecutive states and
    starts the side effects (clone, fetch, list files, delete orphaned
    folders).

    ** The program and the files that model it

    The repository holds two generations of the same program:

    - [src/src/reducers.js], the Flow source of the reducer: a session is
      an Immutable.Map, a repository status is a bare string, and the
      operations are [startClone], [registerStarted] and [removeSession],
      composed by [reduceSessions], [reduceState] and [mainReducer].
      Modelled in [SrcReducers.v], module [Src].
    - [src/lib/reducers.js], a compiled earlier build: a session is a
      plain mutable object that [startClone] updates in place with
      [Object.assign].  Modelled in [LibReducers.v], module [Lib], over an
      explicit heap of session objects, so that the sharing between
      consecutive states is part of the model.
    - [src/src/handle_changes.js], the change handler: [handleChanges]
      diffs the state against the previous one, [handleSessionChanges]
      turns the statuses [start] and [clone_done] into calls of
      [startClone] and [getFiles], [removeUnusedFiles] sweeps the session
      folder, [reportStatus] maps an exit code to a status.  Modelled in
      [HandleChanges.v], module [Handler].  The handler reads repository
      entries as maps with the fields [status], [slug] and [files]; the
      reducer that writes such entries ([setRepoStatus]) is in no file of
      the repository.
    - [src/lib/app.js], the express application: [setRemovalTimeout]
      and the removal timers, the two session middlewares, the CORS
      headers, the POST handler with the listener that answers when a
      clone is [done] or [failed], the guard of [/files], and the
      subscription of the change handler to the store.  Modelled in
      [App.v], module [App], as computations in a monad [App.M] over the
      world of the application (the store's state, the pending timers,
      the POST requests that wait, and what the change handler keeps)
      that also collects the answers sent.  [Server.v], module [Server],
      runs them as a machine whose events are requests, timers that
      fire, and answers of the outside to the requests of the change
      handler.
    - The action creators ([./actions]) and the reducer that handles
      [setRepoStatus] and [setTimeout] are in no file of the repository.
      [Actions.v] gives the four calls as the type [action] and what the
      callers rely on as the class [Reducer] with its laws; [Machine.v],
      module [Machine], gives the reducer of the specification's
      transition table and shows that it is a [Reducer].  [App.v] and
      [Server.v] are proved against the class; [System.v], module
      [System], runs the server over [Machine.reducer]: store, reducer,
      change handler and application together.

    The files depend on each other in this order: [Prelude],
    [SrcReducers], [LibReducers], [HandleChanges], [Actions], [Machine],
    [App], [Server], [System].

    ** How state and operations correspond to the code

    - An Immutable.Map is a [gmap]: [m.get(k)] is [m !! k] ([None] for
      JavaScript's [undefined]), [m.set(k, v)] is [<[k:=v]> m],
      [m.delete(k)] is [delete k m], and [a.equals(b)] is Leibniz equality
      (stdpp's maps are extensional).  In the reducers keys are [jsval]s:
      a string, [null] or [undefined], because the reducers pass
      [action.value] on as a key without looking at it; in the handler
      and the application they are strings, and an id that may be
      [undefined] is an [option string].
    - A map that the code only ever reads and writes at fixed keys
      ([state.get('sessions')], [session.get('repos')]) is a [Record]
      with these keys as fields.
    - [x == null] is [nullish x]; [Object.keys(table).reduce(...)] is
      [reduce_table] over the table as an association list in the order
      of the object literal.
    - The mutable objects of [lib/reducers.js] live in a heap
      [gmap loc _]; an object literal allocates at a fresh reference.
    - A function of [handle_changes.js] returns the list of requests it
      issues; a request carries the callback that [Handler.resume] runs
      on the answer.
    - A handler of [lib/app.js] is a computation [App.M A]: a function
      from the world to its result, the world after it and the answers
      sent.  [setTimeout] returns the next handle of the table
      [App.Timers]; [clearTimeout] deletes a handle; a timer that fires
      is the event [Server.ev_fire].  A POST request that waits is an
      entry of [App.waiting], and [store.dispatch] is [App.dispatch]: the
      reducer, then the change handler ([App.react]), then every waiting
      listener in the order of subscription.
    - A request of the change handler that carries a callback stays in
      [App.outstanding] until the event [Server.ev_answer] answers it;
      the callback's own requests are performed in order ([App.perform]),
      its status reports dispatched at once.  [App.issued] is the history
      of all requests, which the theorems on processes and removed
      folders read.

    ** What the theorems show

    - [Prelude]: the table-driven dispatch is a lookup ([reduce_table_lookup]),
      and invariants of a transition function hold of every reachable state
      ([reachable_ind_inv]).
    - [SrcReducers]: the effect of each reducer on every branch; idempotence
      of [startClone]; that an action touches one session only; that
      [removeSession] deletes the key [action.value], not [action.session_id];
      the status machine absent -> start -> in_progress as a relation that
      every action respects; the invariant that no reachable state holds the
      status [done].
    - [LibReducers]: well-formedness of the heap; that [startClone] on an
      existing session changes what the previous state denotes and returns
      a state equal to the previous one (so a change detector that compares
      states sees nothing); the refinement of [Src.mainReducer] through the
      abstraction [Lib.view] on the actions where the two builds agree, and
      the actions on which they differ.
    - [HandleChanges]: which sessions are handled, which effects a session
      yields, that nothing is started for an unchanged session, the requests
      of every function and callback on every branch, that the callbacks of
      any requests end within three rounds, that the sweep never selects
      the folder of a session of the state it was started with.
    - [Machine]: the laws of [Reducer], and that every action moves a
      status along start, cloning, clone_done, done, failed.
    - [App], for every [Reducer]: the listener answers exactly on [done]
      and [failed]; the two guards for an unknown session (410 on
      [/files], the error of the POST handler) never fire, because the
      middleware has created the session before; a timer that fires
      removes its session; the first request of a visitor leaves a timer
      for [undefined]; the cookie changes with every millisecond.
    - [Server], for every [Reducer] and every sequence of events: the
      pending timers that remove a session are exactly the timers the
      sessions record ([App.timers_ok]); every request is answered at most
      once and is either answered or waiting; every request of a visitor
      makes the handler start again each clone of theirs still at [start];
      the session that the late exit of a process creates is never
      removed.
    - [System], with the reducer of the specification: every entry that is
      cloning or clone_done has its slug, so the handler never dispatches
      from inside a notification; a POST request whose session expires
      during its clone is never answered; and three runs of the whole
      system: a clone that succeeds and is answered, two git processes in
      one folder, and a sweep that removes the folder of a live session.

    ** Bounds and fuel

    The loops of the modelled code are folds over a finite map or a list.
    The only fuel is that of [Handler.settle], which runs the callbacks of
    a list of requests round by round against an environment that answers
    them: a callback's requests have a smaller [Handler.rank], the rank of
    a request is at most 2, and [Handler.settle_enough_fuel] shows that
    three rounds are enough.  The server of [Server.v] is a transition
    function; its theorems are about every finite sequence of events
    ([Prelude.reachable]).  Timer handles and request numbers are natural
    numbers, as many as are needed.  The iteration order of
    Immutable.Map.forEach is not specified; it is modelled by
    [map_to_list], and the theorems on effects are stated up to that order
    (as membership).

    ** Not modelled

    A dispatch from inside a notification is queued ([App.deferred]) where
    redux would run it nested; [System.reachable_never_defers] shows that
    it does not occur.  Time itself (a timer may fire at any moment while
    it is pending), the file system (the answers of [fs.exists], [glob],
    git and [rimraf] are inputs of the events), express' routing, the
    signing of the cookie, the rate limiter, serveStatic and serveIndex,
    SHA-1 (a field of [Handler.Platform]) and [is-git-url] (a field of
    [App.Web]).  Action types are strings; an action whose [type] is not a
    string is outside the model. *)

From stdpp Require Import gmap strings list.

(** ** JavaScript values used as keys and action fields *)

(** The values an action field or a map key takes in the modelled code. *)
Inductive jsval : Type :=
| JUndefined
| JNull
| JStr (s : string).

#[global] Instance jsval_eq_dec : EqDecision jsval.
Proof. solve_decision. Defined.

#[global] Instance jsval_inhabited : Inhabited jsval := populate JUndefined.

#[global] Instance jsval_countable : Countable jsval.
Proof.
  refine (inj_countable'
    (λ v, match v with JUndefined => inr false | JNull => inr true | JStr s => inl s end)
    (λ x, match x with inl s => JStr s | inr false => JUndefined | inr true => JNull end) _).
  by intros [].
Defined.

Coercion JStr : string >-> jsval.

(** [x == null] in JavaScript: true of [null] and of [undefined]. *)
Definition nullish (v : jsval) : bool :=
  match v with
  | JUndefined | JNull => true
  | JStr _ => false
  end.

(** ** Actions

    [type Action = {type, session_id, value}] of [src/src/reducers.js]; a
    field the caller leaves out is [undefined]. *)
Record Action : Type := mkAction {
  type : string;
  session_id : jsval;
  value : jsval;
}.

#[global] Instance Action_eq_dec : EqDecision Action.
Proof. solve_decision. Defined.

Declare Scope js_scope.
Delimit Scope js_scope with js.
(** [⟦ ty ; sid ; v ⟧] is the action [{type: ty, session_id: sid, value: v}]. *)
Notation "⟦ ty ; sid ; v ⟧" := (mkAction ty sid v)
  (at level 0, ty at level 200, sid at level 200, v at level 200,
   format "⟦ ty ;  sid ;  v ⟧") : js_scope.
Open Scope js_scope.

(** ** The idiom [Object.keys(table).reduce(...)] *)

Section reduce_table_def.
Context {S V : Type}.
Implicit Types (table : list (string * (S → V → S))) (ty : string) (v : V) (s : S).

(** [Object.keys(table).reduce((s, name) =>
       name == ty ? table[name](s, v) : s, s)]. *)
Definition reduce_table table ty v s : S :=
  foldl (λ acc '(name, f), if decide (name = ty) then f acc v else acc) s table.

(** The reducer a table holds under a name: the first entry of that name. *)
Fixpoint table_get table ty : option (S → V → S) :=
  match table with
  | [] => None
  | (name, f) :: rest => if decide (name = ty) then Some f else table_get rest ty
  end.

End reduce_table_def.

(** ** Reachable states of a transition function *)

Section reachable_def.
Context {S A : Type} (step : S → A → S) (init : S).

(** The state after a sequence of actions. *)
Definition run (s : S) (acts : list A) : S := foldl step s acts.

(** The states some sequence of actions leads to from [init]. *)
Inductive reachable : S → Prop :=
| reachable_init : reachable init
| reachable_step s a : reachable s → reachable (step s a).

End reachable_def.

(** ** Automation shared by the components *)

Create HintDb js discriminated.
Create Rewrite HintDb js.

(** Case analysis on every [== null] test of the goal. *)
Ltac case_nullish :=
  repeat match goal with
  | |- context [nullish ?v] => destruct (nullish v) eqn:?
  end.

(** Rewrite map lookups and decide the string comparisons a reducer makes. *)
Ltac js_simpl :=
  repeat first
    [ progress simplify_map_eq
    | progress autorewrite with js in *
    | case_decide; simplify_eq ].

(** Destruct the scrutinee of the first [match] of the goal, keeping the
    equation. *)
Ltac case_lookup :=
  match goal with
  | |- context [match ?m !! ?k with _ => _ end] => destruct (m !! k) eqn:?
  end.

(** * Lemmas *)

Lemma nullish_JStr (s : string) : nullish (JStr s) = false.
Proof. done. Qed.

Lemma nullish_false_inv v : nullish v = false → ∃ s, v = JStr s.
Proof. destruct v; naive_solver. Qed.

Lemma nullish_true_inv v : nullish v = true → v = JUndefined ∨ v = JNull.
Proof. destruct v; naive_solver. Qed.

(** [s.slice(n, n + m)] has [m] characters when [s] is long enough. *)
Lemma length_substring (s : string) (n m : nat) :
  n + m ≤ String.length s → String.length (String.substring n m s) = m.
Proof.
  revert n m. induction s as [|c s IH]; intros [|n] [|m]; cbn; try lia.
  - intros ?. f_equal. apply IH. lia.
  - intros ?. apply IH. lia.
  - intros ?. apply IH. lia.
Qed.

Section reduce_table.
Context {S V : Type}.
Implicit Types (table : list (string * (S → V → S))) (ty : string) (v : V) (s : S).

Lemma reduce_table_nil ty v s : reduce_table [] ty v s = s.
Proof. done. Qed.

Lemma reduce_table_cons name f table ty v s :
  reduce_table ((name, f) :: table) ty v s =
  reduce_table table ty v (if decide (name = ty) then f s v else s).
Proof. done. Qed.

Lemma reduce_table_absent table ty v s :
  ty ∉ table.*1 → reduce_table table ty v s = s.
Proof.
  revert s. induction table as [|[name f] table IH]; intros s Hnot; [done|].
  rewrite reduce_table_cons. apply not_elem_of_cons in Hnot as [Hne Hnot].
  rewrite decide_False by done. by apply IH.
Qed.

(** With no name twice in the table (an object literal has none), the
    reduction applies the one reducer of that name, or nothing. *)
Lemma reduce_table_lookup table ty v s :
  NoDup table.*1 →
  reduce_table table ty v s = from_option (λ f, f s v) s (table_get table ty).
Proof.
  revert s. induction table as [|[name f] table IH]; intros s Hnd; [done|].
  apply NoDup_cons in Hnd as [Hnot Hnd].
  rewrite reduce_table_cons. simpl. case_decide as Heq.
  - subst. by apply reduce_table_absent.
  - by apply IH.
Qed.

End reduce_table.

Section reachable.
Context {S A : Type} (step : S → A → S) (init : S).

Lemma run_app s l k : run step s (l ++ k) = run step (run step s l) k.
Proof. apply foldl_app. Qed.

Lemma run_snoc s l a : run step s (l ++ [a]) = step (run step s l) a.
Proof. apply foldl_snoc. Qed.

Lemma reachable_run acts : reachable step init (run step init acts).
Proof.
  induction acts as [|a acts IH] using rev_ind; [constructor|].
  rewrite run_snoc. by constructor.
Qed.

Lemma reachable_is_run s : reachable step init s → ∃ acts, s = run step init acts.
Proof.
  induction 1 as [|s a _ [acts ->]]; [by exists []|].
  exists (acts ++ [a]). by rewrite run_snoc.
Qed.

(** An invariant of the initial state that every step keeps holds of every
    reachable state. *)
Lemma reachable_ind_inv (P : S → Prop) :
  P init → (∀ s a, P s → P (step s a)) → ∀ s, reachable step init s → P s.
Proof. intros H0 Hstep s. induction 1; auto. Qed.

End reachable.

#[export] Hint Rewrite nullish_JStr : js.
#[export] Hint Constructors reachable : js.
