(* ===== verification/SrcReducers.v ===== *)
(** * The reducer of [src/src/reducers.js]

    Module [Src] models the Flow source of the reducer.  The state is an
    Immutable.Map with the one key [sessions]; a session is an
    Immutable.Map with the one key [repos]; [repos] maps a URL to a status
    string.  [sessionReducers] and [stateReducers] are tables of reducers
    that [reduceSessions] and [reduceState] search by the action's type;
    [mainReducer] composes them.

    The theorems give the effect of each reducer on every branch, show that
    an action changes one session only, relate the table-driven code to a
    reference definition by cases on the action's type, and establish the
    status machine and the invariant of the states the reducer can reach. *)

From stdpp Require Import gmap strings list.
From S2P Require Import Prelude.

Module Src.

(** ** Data *)

(** [type RepoStatus = 'start' | 'in_progress' | 'done' | 'invalid']. *)
Inductive RepoStatus : Type :=
| start
| in_progress
| done
| invalid.

#[global] Instance RepoStatus_eq_dec : EqDecision RepoStatus.
Proof. solve_decision. Defined.

(** [type Session = Immutable.Map]: the map [{repos: Immutable.Map}]. *)
Record Session : Type := mkSession {
  repos : gmap jsval RepoStatus;
}.

#[global] Instance Session_eq_dec : EqDecision Session.
Proof. solve_decision. Defined.

(** [type State = Immutable.Map]: the map [{sessions: Immutable.Map}]. *)
Record State : Type := mkState {
  sessions : gmap jsval Session;
}.

#[global] Instance State_eq_dec : EqDecision State.
Proof. solve_decision. Defined.

(** [Immutable.Map({sessions: Immutable.Map()})]. *)
Definition initial_state : State := {| sessions := ∅ |}.

(** The session [reduceSessions] makes for an unknown id:
    [Immutable.Map({repos: Immutable.Map()})]. *)
Definition empty_session : Session := {| repos := ∅ |}.

(** ** Operations *)

(** [sessionReducers.startClone(session, url)]: an absent or [done] URL
    becomes [start]; any other status is left alone. *)
Definition startClone (session : Session) (url : jsval) : Session :=
  match repos session !! url with
  | None | Some done => {| repos := <[url := start]> (repos session) |}
  | Some _ => session
  end.

(** [sessionReducers.registerStarted(session, url)]: [start] becomes
    [in_progress]. *)
Definition registerStarted (session : Session) (url : jsval) : Session :=
  match repos session !! url with
  | Some start => {| repos := <[url := in_progress]> (repos session) |}
  | _ => session
  end.

(** The object literal [sessionReducers], in the order of its keys. *)
Definition sessionReducers : list (string * (Session → jsval → Session)) :=
  [("startClone", startClone); ("registerStarted", registerStarted)].

(** [stateReducers.removeSession(state, session_id)]. *)
Definition removeSession (state : State) (session_id : jsval) : State :=
  {| sessions := delete session_id (sessions state) |}.

(** The object literal [stateReducers]. *)
Definition stateReducers : list (string * (State → jsval → State)) :=
  [("removeSession", removeSession)].

(** [reduceSessions(sessions, action)]: without a session id nothing
    changes; otherwise the session (a new one for an unknown id) goes
    through the reducer named by the action's type and is stored back. *)
Definition reduceSessions (sessions : gmap jsval Session) (action : Action)
    : gmap jsval Session :=
  if nullish (session_id action) then sessions
  else
    let session := default empty_session (sessions !! session_id action) in
    let session :=
      reduce_table sessionReducers (type action) (value action) session in
    <[session_id action := session]> sessions.

(** [reduceState(state, action)]. *)
Definition reduceState (state : State) (action : Action) : State :=
  reduce_table stateReducers (type action) (value action) state.

(** [mainReducer(state, action)]; [None] is the [undefined] state redux
    passes first. *)
Definition mainReducer (state : option State) (action : Action) : State :=
  let state := default initial_state state in
  let state := {| sessions := reduceSessions (sessions state) action |} in
  reduceState state action.

(** The transition function of the store: the reducer on a defined state. *)
Definition step (state : State) (action : Action) : State :=
  mainReducer (Some state) action.

(** ** Reference definitions *)

(** The status of a URL in a session of a state: [None] when the session or
    the URL is unknown. *)
Definition status_of (state : State) (id url : jsval) : option RepoStatus :=
  sessions state !! id ≫= λ session, repos session !! url.

(** What the reducer named [ty] does to a session, by cases. *)
Definition session_spec (ty : string) (session : Session) (v : jsval) : Session :=
  if decide (ty = "startClone") then startClone session v
  else if decide (ty = "registerStarted") then registerStarted session v
  else session.

(** [mainReducer] by cases on the action: the session part, then the
    removal. *)
Definition mainReducer_spec (state : option State) (action : Action) : State :=
  let ss := sessions (default initial_state state) in
  let ss' :=
    if nullish (session_id action) then ss
    else <[session_id action :=
             session_spec (type action)
               (default empty_session (ss !! session_id action))
               (value action)]> ss in
  if decide (type action = "removeSession")
  then {| sessions := delete (value action) ss' |}
  else {| sessions := ss' |}.

(** The moves of one URL's status that an action can cause. *)
Inductive status_trans : option RepoStatus → option RepoStatus → Prop :=
| trans_stay o : status_trans o o
| trans_submit : status_trans None (Some start)
| trans_resubmit : status_trans (Some done) (Some start)
| trans_started : status_trans (Some start) (Some in_progress)
| trans_removed o : status_trans o None.

(** The statuses the reducers write. *)
Definition written (st : RepoStatus) : Prop := st = start ∨ st = in_progress.

(** Every status of a state is one the reducers write. *)
Definition statuses_written (state : State) : Prop :=
  ∀ id url st, status_of state id url = Some st → written st.

(** ** A concrete run *)

(** A session submits a URL and the clone is registered as started. *)
Definition demo_actions : list Action :=
  [⟦"startClone"; "s1"; "https://host/repo.git"⟧;
   ⟦"registerStarted"; "s1"; "https://host/repo.git"⟧].

Definition demo_state : State := run step initial_state demo_actions.

(** * Lemmas *)

(** ** The session reducers *)

Lemma startClone_fresh session url :
  repos session !! url = None ∨ repos session !! url = Some done →
  startClone session url = {| repos := <[url := start]> (repos session) |}.
Proof. unfold startClone. by intros [-> | ->]. Qed.

Lemma startClone_busy session url st :
  repos session !! url = Some st → st ≠ done → startClone session url = session.
Proof. unfold startClone. intros -> ?. by destruct st. Qed.

Lemma lookup_startClone session url url' :
  repos (startClone session url) !! url' =
  if decide (url = url') then
    match repos session !! url with
    | None | Some done => Some start
    | Some st => Some st
    end
  else repos session !! url'.
Proof.
  unfold startClone.
  destruct (repos session !! url) as [[]|] eqn:E; case_decide; simplify_map_eq; done.
Qed.

Lemma lookup_registerStarted session url url' :
  repos (registerStarted session url) !! url' =
  if decide (url = url') then
    match repos session !! url with
    | Some start => Some in_progress
    | o => o
    end
  else repos session !! url'.
Proof.
  unfold registerStarted.
  destruct (repos session !! url) as [[]|] eqn:E; case_decide; simplify_map_eq; done.
Qed.

(** ** The tables *)

Lemma reduce_sessionReducers ty v session :
  reduce_table sessionReducers ty v session = session_spec ty session v.
Proof.
  unfold session_spec, sessionReducers.
  rewrite !reduce_table_cons, reduce_table_nil.
  repeat case_decide; try done; subst; discriminate.
Qed.

Lemma reduce_stateReducers ty v state :
  reduce_table stateReducers ty v state =
  if decide (ty = "removeSession") then removeSession state v else state.
Proof.
  unfold stateReducers. rewrite reduce_table_cons, reduce_table_nil.
  repeat case_decide; congruence.
Qed.

Lemma step_spec state action :
  step state action = mainReducer_spec (Some state) action.
Proof.
  unfold step, mainReducer, mainReducer_spec, reduceState, reduceSessions.
  rewrite reduce_stateReducers, reduce_sessionReducers.
  unfold removeSession. repeat case_decide; case_nullish; done.
Qed.

(** ** The sessions after a step *)

(** The sessions after an action, by cases. *)
Lemma sessions_step state action :
  sessions (step state action) =
  let ss' :=
    if nullish (session_id action) then sessions state
    else <[session_id action :=
             session_spec (type action)
               (default empty_session (sessions state !! session_id action))
               (value action)]> (sessions state) in
  if decide (type action = "removeSession") then delete (value action) ss' else ss'.
Proof.
  rewrite step_spec. unfold mainReducer_spec.
  change (default initial_state (Some state)) with state. by case_decide.
Qed.

Lemma lookup_session_part state action id :
  (if nullish (session_id action) then sessions state
   else <[session_id action :=
            session_spec (type action)
              (default empty_session (sessions state !! session_id action))
              (value action)]> (sessions state)) !! id =
  if decide (nullish (session_id action) = false ∧ id = session_id action)
  then Some (session_spec (type action)
               (default empty_session (sessions state !! id)) (value action))
  else sessions state !! id.
Proof.
  destruct (nullish (session_id action)) eqn:Hnull.
  - by rewrite decide_False by (by intros [? _]).
  - case_decide as Hid.
    + destruct Hid as [_ ->]. by rewrite lookup_insert_eq.
    + rewrite lookup_insert_ne; [done|]. intros <-. by apply Hid.
Qed.

(** The session under every id after a step. *)
Lemma lookup_step state action id :
  sessions (step state action) !! id =
  if decide (type action = "removeSession" ∧ id = value action) then None
  else if decide (nullish (session_id action) = false ∧ id = session_id action)
  then Some (session_spec (type action)
               (default empty_session (sessions state !! id)) (value action))
  else sessions state !! id.
Proof.
  rewrite sessions_step. cbv zeta.
  destruct (decide (type action = "removeSession")) as [Hty|Hty].
  - destruct (decide (id = value action)) as [->|Hne].
    + rewrite decide_True by done. apply lookup_delete_eq.
    + rewrite decide_False, lookup_delete_ne by (done || by intros [_ ?]).
      apply lookup_session_part.
  - rewrite decide_False by (by intros [? _]). apply lookup_session_part.
Qed.

(** The session under the action's own id after a step that does not
    remove it. *)
Lemma lookup_step_own state action :
  nullish (session_id action) = false →
  ¬ (type action = "removeSession" ∧ value action = session_id action) →
  sessions (step state action) !! session_id action =
  Some (session_spec (type action)
          (default empty_session (sessions state !! session_id action))
          (value action)).
Proof.
  intros Hnull Hrm. rewrite lookup_step.
  rewrite decide_False by (intros [? ?]; by apply Hrm).
  by rewrite decide_True.
Qed.

(** ** Statuses *)

Lemma status_of_default state id url :
  status_of state id url =
  repos (default empty_session (sessions state !! id)) !! url.
Proof. unfold status_of. by destruct (sessions state !! id). Qed.

Lemma session_spec_trans ty session v url :
  status_trans (repos session !! url) (repos (session_spec ty session v) !! url).
Proof.
  unfold session_spec. repeat case_decide; [| |constructor].
  - rewrite lookup_startClone. case_decide; [subst|constructor].
    destruct (repos session !! url) as [[]|]; constructor.
  - rewrite lookup_registerStarted. case_decide; [subst|constructor].
    destruct (repos session !! url) as [[]|]; constructor.
Qed.

Lemma status_trans_step state action id url :
  status_trans (status_of state id url) (status_of (step state action) id url).
Proof.
  unfold status_of at 2. rewrite lookup_step, status_of_default.
  repeat case_decide; simpl; [constructor|apply session_spec_trans|].
  rewrite <-status_of_default. unfold status_of. constructor.
Qed.

Lemma initial_statuses_written : statuses_written initial_state.
Proof. intros id url st. unfold status_of, initial_state. by simplify_map_eq. Qed.

Lemma step_statuses_written state action :
  statuses_written state → statuses_written (step state action).
Proof.
  intros Hinv id url st Hst.
  pose proof (status_trans_step state action id url) as Htr.
  rewrite Hst in Htr.
  inversion Htr; subst; [by eapply Hinv|by left|by left|by right].
Qed.

Lemma statuses_written_reachable state :
  reachable step initial_state state → statuses_written state.
Proof.
  apply (reachable_ind_inv step initial_state statuses_written).
  - apply initial_statuses_written.
  - intros s a. apply step_statuses_written.
Qed.

#[export] Hint Resolve initial_statuses_written step_statuses_written : js.

(** * Theorems *)

(** ** The session reducers *)

(** C32: The status of every URL after [startClone]: the submitted URL is
    [start] if it was absent or [done] and keeps its status otherwise
    ([start] and [in_progress] are not reset); no other URL changes. *)
Theorem startClone_lookup session url url' :
  repos (startClone session url) !! url' =
  if decide (url = url') then
    match repos session !! url with
    | None | Some done => Some start
    | Some st => Some st
    end
  else repos session !! url'.
Proof. apply lookup_startClone. Qed.

(** ** The composition *)

(** C9: the session found under every id after [mainReducer]: none under
    the id a removal names in its value; under the action's non-null
    session id, the session the named reducer returns (on an empty session
    if the id was unknown); elsewhere the session of before.  An undefined
    state counts as [initial_state]. *)
Theorem mainReducer_lookup state action id :
  sessions (mainReducer state action) !! id =
  let before := sessions (default initial_state state) in
  if decide (type action = "removeSession" ∧ id = value action) then None
  else if decide (nullish (session_id action) = false ∧ id = session_id action)
  then Some (session_spec (type action)
               (default empty_session (before !! id)) (value action))
  else before !! id.
Proof.
  destruct state as [state|]; [apply lookup_step|].
  apply (lookup_step initial_state).
Qed.

(** An action without a session id that is no removal leaves the state
    as it is. *)
Theorem mainReducer_ignores state action :
  nullish (session_id action) = true →
  type action ≠ "removeSession" →
  mainReducer (Some state) action = state.
Proof.
  intros Hnull Hty. fold (step state action). rewrite step_spec.
  unfold mainReducer_spec.
  rewrite Hnull, decide_False by done. by destruct state.
Qed.

(** C36: an action changes no session but the one it names (and, for a
    removal, the one its value names). *)
Theorem step_frame state action id :
  id ≠ session_id action →
  (type action = "removeSession" → id ≠ value action) →
  sessions (step state action) !! id = sessions state !! id.
Proof.
  intros Hid Hval. rewrite lookup_step.
  rewrite !decide_False; [done|by intros [_ ?]|].
  intros [Hty ?]. by apply Hval.
Qed.

(** [removeSession] removes the session that the action's value names. *)
Theorem removeSession_by_value state action :
  type action = "removeSession" →
  sessions (step state action) !! value action = None.
Proof. intros Hty. rewrite lookup_step. by rewrite decide_True. Qed.

(** C10: a [removeSession] action that names the session in [session_id] and
    not in [value] removes nothing: the session is present afterwards, even
    if it was not before. *)
Theorem removeSession_keeps_session_id state action :
  type action = "removeSession" →
  nullish (session_id action) = false →
  value action ≠ session_id action →
  is_Some (sessions (step state action) !! session_id action).
Proof.
  intros Hty Hnull Hval. rewrite lookup_step_own; [done..|]. by intros [_ ?].
Qed.

(** ** The status machine *)

(** C3: whatever the action, the status of every URL of every session moves
    by one of: no change, absent to [start], [done] to [start], [start] to
    [in_progress], or removal. *)
Theorem step_status_trans state action id url :
  status_trans (status_of state id url) (status_of (step state action) id url).
Proof. apply status_trans_step. Qed.

(** C28: in every state the reducer reaches from [initial_state], every
    status is [start] or [in_progress]: no action writes [done] or
    [invalid]. *)
Theorem reachable_statuses_written state :
  reachable step initial_state state → statuses_written state.
Proof. apply (reachable_ind_inv step initial_state); auto with js. Qed.

(** C8: in a reachable state, submitting a URL that the session already
    holds changes nothing: no status the reducer writes lets [startClone]
    start over. *)
Theorem reachable_startClone_once state id url :
  reachable step initial_state state →
  is_Some (status_of state id url) →
  step state ⟦"startClone"; id; url⟧ = state.
Proof.
  intros Hreach [st Hst].
  pose proof (statuses_written_reachable _ Hreach _ _ _ Hst) as Hw.
  unfold status_of in Hst.
  destruct (sessions state !! id) as [session|] eqn:Hs; simplify_eq/=.
  rewrite step_spec. unfold mainReducer_spec.
  rewrite decide_False by done.
  change (default initial_state (Some state)) with state. cbn [type session_id value].
  destruct state as [ss]. f_equal. case_nullish; [done|].
  cbn [sessions] in *. rewrite Hs.
  change (default empty_session (Some session)) with session.
  unfold session_spec. rewrite decide_True by done.
  rewrite (startClone_busy _ _ st) by (done || destruct Hw; congruence).
  by apply insert_id.
Qed.

(** submitting a URL the session does not hold yet returns a state
    that differs from the one before: the status of the URL is now
    [start]. *)
Theorem step_startClone_new state id url :
  nullish id = false →
  status_of state id url = None →
  status_of (step state ⟦"startClone"; id; url⟧) id url = Some start ∧
  step state ⟦"startClone"; id; url⟧ ≠ state.
Proof.
  intros Hnull Hnone.
  assert (status_of (step state ⟦"startClone"; id; url⟧) id url = Some start) as Hst.
  { pose proof (lookup_step_own state ⟦"startClone"; id; url⟧ Hnull) as Hown.
    cbn [type session_id value] in Hown.
    unfold status_of at 1. rewrite Hown by (by intros [? _]).
    cbn. unfold session_spec. rewrite decide_True by done.
    rewrite lookup_startClone, decide_True, <-status_of_default, Hnone by done.
    done. }
  split; [done|]. intros Heq. rewrite Heq in Hst. congruence.
Qed.

(** ** Concrete runs *)

Example demo_status :
  status_of demo_state "s1" "https://host/repo.git" = Some in_progress.
Proof. vm_compute. reflexivity. Qed.

Example demo_resubmit_while_in_progress :
  step demo_state ⟦"startClone"; "s1"; "https://host/repo.git"⟧ = demo_state.
Proof. vm_compute. reflexivity. Qed.

Example demo_remove_by_value :
  sessions (step demo_state ⟦"removeSession"; JUndefined; "s1"⟧) = ∅.
Proof. vm_compute. reflexivity. Qed.

Example demo_remove_by_session_id :
  step demo_state ⟦"removeSession"; "s1"; JUndefined⟧ = demo_state.
Proof. vm_compute. reflexivity. Qed.

Lemma mainReducer_ignores_witness :
  mainReducer (Some demo_state) ⟦"startClone"; JUndefined; "u"⟧ = demo_state.
Proof. apply mainReducer_ignores; [reflexivity|discriminate]. Defined.

Lemma step_frame_witness :
  sessions (step demo_state ⟦"startClone"; "s2"; "u"⟧) !! JStr "s1" =
  sessions demo_state !! JStr "s1".
Proof. apply step_frame; discriminate. Defined.

Lemma removeSession_by_value_witness :
  sessions (step demo_state ⟦"removeSession"; JUndefined; "s1"⟧) !! JStr "s1" = None.
Proof.
  apply (removeSession_by_value demo_state ⟦"removeSession"; JUndefined; "s1"⟧).
  reflexivity.
Defined.

Lemma removeSession_keeps_session_id_witness :
  is_Some (sessions (step demo_state ⟦"removeSession"; "s1"; JUndefined⟧) !! JStr "s1").
Proof.
  apply (removeSession_keeps_session_id demo_state ⟦"removeSession"; "s1"; JUndefined⟧);
    [reflexivity|reflexivity|discriminate].
Defined.

Lemma reachable_statuses_written_witness :
  status_of demo_state "s1" "https://host/repo.git" = Some in_progress ∧
  written in_progress.
Proof.
  split; [vm_compute; reflexivity|].
  apply (reachable_statuses_written demo_state (reachable_run step initial_state demo_actions)
           "s1" "https://host/repo.git").
  vm_compute. reflexivity.
Defined.

Lemma reachable_startClone_once_witness :
  step demo_state ⟦"startClone"; "s1"; "https://host/repo.git"⟧ = demo_state.
Proof.
  apply reachable_startClone_once.
  - apply (reachable_run step initial_state demo_actions).
  - exists in_progress. vm_compute. reflexivity.
Defined.

Lemma step_startClone_new_witness :
  status_of (step demo_state ⟦"startClone"; "s1"; "https://host/b.git"⟧)
    "s1" "https://host/b.git" = Some start ∧
  step demo_state ⟦"startClone"; "s1"; "https://host/b.git"⟧ ≠ demo_state.
Proof.
  apply (step_startClone_new demo_state "s1" "https://host/b.git");
    [reflexivity|vm_compute; reflexivity].
Defined.

End Src.
