(* ===== verification/LibReducers.v ===== *)
(** * The reducer of [src/lib/reducers.js]

    Module [Lib] models the compiled build of the reducer.  Here a session
    is a plain JavaScript object [{repos: Immutable.Map}], and
    [sessionReducers.startClone] updates it in place with [Object.assign].
    The state's [sessions] map therefore holds references: two states that
    contain the same session object see each other's updates.

    The model keeps the objects in a heap ([gmap loc SessionObj]) and the
    references in the state ([gmap jsval loc]); [mainReducer] threads the
    heap.  Equality of two states is equality of their reference maps,
    which is what [Immutable.is] computes on plain objects.  [view] reads
    a state in a heap as the immutable value it denotes.

    The theorems state the heap invariant (no dangling and no shared
    reference) and that [mainReducer] keeps it, the functional behaviour of
    [mainReducer] on the value a state denotes, the refinement of
    [Src.mainReducer] on the actions where the two builds agree, the
    actions where they differ, and the consequence of the in-place update:
    the returned state equals the previous one while the value the previous
    one denotes has changed. *)

From stdpp Require Import gmap strings list.
From S2P Require Import Prelude SrcReducers.

Module Lib.

(** ** Data *)

(** References to session objects. *)
Abbreviation loc := positive (only parsing).

(** The object [{repos: Immutable.Map()}]; the statuses are those of the
    source build (this build writes ['start'] and tests for ['done']). *)
Record SessionObj : Type := mkObj {
  repos : gmap jsval Src.RepoStatus;
}.

#[global] Instance SessionObj_eq_dec : EqDecision SessionObj.
Proof. solve_decision. Defined.

(** The store of session objects. *)
Abbreviation heap := (gmap loc SessionObj) (only parsing).

(** The map [{sessions: Immutable.Map}] from session ids to references. *)
Record State : Type := mkState {
  sessions : gmap jsval loc;
}.

#[global] Instance State_eq_dec : EqDecision State.
Proof. solve_decision. Defined.

(** [Immutable.Map({sessions: Immutable.Map()})]. *)
Definition initial_state : State := {| sessions := ∅ |}.

(** ** Operations *)

(** An object literal: a new object at a reference no object has. *)
Definition alloc (h : heap) (obj : SessionObj) : heap * loc :=
  let l := fresh (dom h) in (<[l := obj]> h, l).

(** [sessionReducers.startClone(session, repo_folder)]: on an absent or
    [done] entry, [Object.assign(session, {repos})] overwrites the field
    of the object [session] refers to and returns the same reference. *)
Definition startClone (hs : heap * loc) (repo_folder : jsval) : heap * loc :=
  let '(h, session) := hs in
  match h !! session with
  | Some obj =>
      match repos obj !! repo_folder with
      | None | Some Src.done =>
          let repos := <[repo_folder := Src.start]> (repos obj) in
          (<[session := {| repos := repos |}]> h, session)
      | Some _ => (h, session)
      end
  | None => (h, session)
  end.

(** The object literal [sessionReducers]. *)
Definition sessionReducers : list (string * (heap * loc → jsval → heap * loc)) :=
  [("startClone", startClone)].

(** [stateReducers.removeSession(state, session_id)]. *)
Definition removeSession (state : State) (session_id : jsval) : State :=
  {| sessions := delete session_id (sessions state) |}.

(** The object literal [stateReducers]. *)
Definition stateReducers : list (string * (State → jsval → State)) :=
  [("removeSession", removeSession)].

(** [mainReducer(state, action)] in a heap [h]: the new heap and the new
    state.  Without a session id the state is returned as it is.  An
    unknown id gets a new object.  A state reducer receives the action's
    value, or the session id when the value is null. *)
Definition mainReducer (h : heap) (state : option State) (action : Action)
    : heap * State :=
  let state := default initial_state state in
  if nullish (session_id action) then (h, state)
  else
    let hs :=
      match sessions state !! session_id action with
      | Some session => (h, session)
      | None => alloc h {| repos := ∅ |}
      end in
    let '(h', session) :=
      reduce_table sessionReducers (type action) (value action) hs in
    let sessions := <[session_id action := session]> (sessions state) in
    let state := {| sessions := sessions |} in
    let value :=
      if nullish (value action) then session_id action else value action in
    (h', reduce_table stateReducers (type action) value state).

(** The transition function of the store: heap and state together. *)
Definition step (w : heap * State) (action : Action) : heap * State :=
  mainReducer w.1 (Some w.2) action.

(** ** Reference definitions *)

(** The immutable value a state denotes in a heap: every session id with
    the contents of the object it refers to. *)
Definition view (h : heap) (state : State) : gmap jsval Src.Session :=
  omap (λ l, (λ obj, Src.mkSession (repos obj)) <$> h !! l) (sessions state).

(** The state of the source build that a heap and a state denote. *)
Definition abs (w : heap * State) : Src.State := Src.mkState (view w.1 w.2).

(** Every reference of the state points to an object. *)
Definition no_dangling (h : heap) (state : State) : Prop :=
  ∀ id l, sessions state !! id = Some l → is_Some (h !! l).

(** No two session ids share an object. *)
Definition no_sharing (state : State) : Prop :=
  ∀ id1 id2 l, sessions state !! id1 = Some l → sessions state !! id2 = Some l →
    id1 = id2.

(** The invariant of heap and state. *)
Definition wf (w : heap * State) : Prop := no_dangling w.1 w.2 ∧ no_sharing w.2.

(** The actions on which the two builds are meant to agree: a session id,
    no [registerStarted] (this build has none), and a removal that names
    its session in [value]. *)
Definition common (action : Action) : Prop :=
  nullish (session_id action) = false ∧
  type action ≠ "registerStarted" ∧
  (type action = "removeSession" → nullish (value action) = false).

(** A session submits a URL. *)
Definition demo_world : heap * State :=
  step (∅, initial_state) ⟦"startClone"; "s1"; "https://host/a.git"⟧.

(** The same session submits a second URL. *)
Definition demo_action : Action := ⟦"startClone"; "s1"; "https://host/b.git"⟧.

(** What the session reducer named [ty] does to a session value. *)
Definition session_spec (ty : string) (session : Src.Session) (v : jsval)
    : Src.Session :=
  if decide (ty = "startClone") then Src.startClone session v else session.

(** The value a removal deletes: the action's value, or its session id. *)
Definition removal_key (action : Action) : jsval :=
  if nullish (value action) then session_id action else value action.

(** The session a session-scoped action works on: the known one, or a new
    empty object. *)
Definition target (w : heap * State) (action : Action) : heap * loc :=
  match sessions w.2 !! session_id action with
  | Some session => (w.1, session)
  | None => alloc w.1 {| repos := ∅ |}
  end.

(** The heap and the reference after the session reducers. *)
Definition reduced (w : heap * State) (action : Action) : heap * loc :=
  if decide (type action = "startClone")
  then startClone (target w action) (value action)
  else target w action.

(** * Theorems *)

(** ** The session reducer on the heap *)

Lemma startClone_ref h session v : (startClone (h, session) v).2 = session.
Proof.
  unfold startClone. destruct (h !! session) as [obj|]; [|done].
  by destruct (repos obj !! v) as [[]|].
Qed.

(** The object a reference points to after [startClone] on that
    reference holds what the source build's [startClone] returns. *)
Lemma startClone_heap_eq h session obj v :
  h !! session = Some obj →
  (startClone (h, session) v).1 !! session =
  Some (mkObj (Src.repos (Src.startClone (Src.mkSession (repos obj)) v))).
Proof.
  intros Hobj. unfold startClone, Src.startClone. rewrite Hobj. cbn [Src.repos].
  destruct (repos obj !! v) as [[]|]; cbn [fst Src.repos];
    rewrite ?lookup_insert_eq, ?Hobj; by try destruct obj.
Qed.

Lemma startClone_heap_ne h session v l :
  l ≠ session → (startClone (h, session) v).1 !! l = h !! l.
Proof.
  intros Hne. unfold startClone. destruct (h !! session) as [obj|]; [|done].
  destruct (repos obj !! v) as [[]|]; cbn [fst]; by rewrite ?lookup_insert_ne.
Qed.

Lemma startClone_dom h session v : dom (startClone (h, session) v).1 = dom h.
Proof.
  unfold startClone. destruct (h !! session) as [obj|] eqn:Hobj; [|done].
  destruct (repos obj !! v) as [[]|]; cbn [fst]; try done;
    by apply dom_insert_lookup_L.
Qed.

Lemma alloc_fresh h obj : h !! (alloc h obj).2 = None.
Proof. apply not_elem_of_dom, is_fresh. Qed.

Lemma alloc_lookup h obj : (alloc h obj).1 !! (alloc h obj).2 = Some obj.
Proof. unfold alloc. cbn [fst snd]. apply lookup_insert_eq. Qed.

Lemma alloc_lookup_ne h obj l : is_Some (h !! l) → (alloc h obj).1 !! l = h !! l.
Proof.
  intros Hl. unfold alloc. cbn [fst]. apply lookup_insert_ne.
  intros <-. apply (is_Some_None (A:=SessionObj)). by rewrite <-(alloc_fresh h obj).
Qed.

(** ** The composition *)

Lemma sessionReducers_cases ty v hs :
  reduce_table sessionReducers ty v hs =
  if decide (ty = "startClone") then startClone hs v else hs.
Proof.
  unfold sessionReducers. rewrite reduce_table_cons, reduce_table_nil.
  repeat case_decide; congruence.
Qed.

Lemma stateReducers_cases ty v state :
  reduce_table stateReducers ty v state =
  if decide (ty = "removeSession") then removeSession state v else state.
Proof.
  unfold stateReducers. rewrite reduce_table_cons, reduce_table_nil.
  repeat case_decide; congruence.
Qed.

(** The reducer by cases on the action. *)
Lemma step_unfold w action :
  step w action =
  if nullish (session_id action) then w
  else
    let ss := <[session_id action := (reduced w action).2]> (sessions w.2) in
    ((reduced w action).1,
     {| sessions := if decide (type action = "removeSession")
                    then delete (removal_key action) ss else ss |}).
Proof.
  unfold step, mainReducer, reduced, target.
  change (default initial_state (Some w.2)) with w.2.
  destruct (nullish (session_id action)); [by destruct w|].
  rewrite sessionReducers_cases.
  destruct (if decide (type action = "startClone") then _ else _) as [h' l'].
  rewrite stateReducers_cases. unfold removeSession.
  cbn [fst snd sessions]. fold (removal_key action). by case_decide.
Qed.

(** ** What a state denotes *)

Lemma lookup_view h state id :
  view h state !! id =
  sessions state !! id ≫= λ l, (λ obj, Src.mkSession (repos obj)) <$> h !! l.
Proof. apply lookup_omap. Qed.

Lemma lookup_view_Some h state id l obj :
  sessions state !! id = Some l → h !! l = Some obj →
  view h state !! id = Some (Src.mkSession (repos obj)).
Proof. intros Hl Hobj. by rewrite lookup_view, Hl; cbn; rewrite Hobj. Qed.

Lemma lookup_view_None h state id :
  sessions state !! id = None → view h state !! id = None.
Proof. intros Hl. by rewrite lookup_view, Hl. Qed.

Section step_lemmas.
Context (w : heap * State) (action : Action).
Context (Hwf : wf w).

Lemma reduced_ref : (reduced w action).2 = (target w action).2.
Proof.
  unfold reduced. case_decide; [|done].
  destruct (target w action) as [h l]. apply startClone_ref.
Qed.

(** The object the action works on holds the session the state denotes
    under the action's id, or is empty for an unknown id. *)
Lemma target_obj :
  ∃ obj, (target w action).1 !! (target w action).2 = Some obj ∧
    Src.mkSession (repos obj) =
    default Src.empty_session (view w.1 w.2 !! session_id action).
Proof.
  unfold target. destruct (sessions w.2 !! session_id action) as [l|] eqn:Hl.
  - destruct (proj1 Hwf _ _ Hl) as [obj Hobj]. exists obj. split; [done|].
    by rewrite (lookup_view_Some _ _ _ _ _ Hl Hobj).
  - exists {| repos := ∅ |}. split; [apply alloc_lookup|].
    by rewrite lookup_view_None.
Qed.

(** The objects of the other sessions are where they were. *)
Lemma target_other id l :
  sessions w.2 !! id = Some l → (target w action).1 !! l = w.1 !! l.
Proof.
  intros Hl. unfold target. destruct (sessions w.2 !! session_id action); [done|].
  apply alloc_lookup_ne. by apply (proj1 Hwf id).
Qed.

(** No other session refers to the object the action works on. *)
Lemma target_unshared id l :
  sessions w.2 !! id = Some l → id ≠ session_id action → l ≠ (target w action).2.
Proof.
  intros Hl Hid Heq. unfold target in Heq.
  destruct (sessions w.2 !! session_id action) as [l'|] eqn:Hl'; cbn [snd] in Heq.
  - subst. by apply Hid, (proj2 Hwf _ _ _ Hl Hl').
  - destruct (proj1 Hwf _ _ Hl) as [obj Hobj]. subst.
    by rewrite alloc_fresh in Hobj.
Qed.

Lemma reduced_obj :
  ∃ obj, (reduced w action).1 !! (reduced w action).2 = Some obj ∧
    Src.mkSession (repos obj) =
    session_spec (type action)
      (default Src.empty_session (view w.1 w.2 !! session_id action))
      (value action).
Proof.
  destruct target_obj as (obj & Hobj & Hval). rewrite reduced_ref.
  unfold reduced, session_spec. case_decide; [|by exists obj].
  destruct (target w action) as [h l]. cbn [fst snd] in *.
  eexists. split; [by apply startClone_heap_eq|]. rewrite <-Hval.
  by destruct (Src.startClone _ _).
Qed.

Lemma reduced_other id l :
  sessions w.2 !! id = Some l → id ≠ session_id action →
  (reduced w action).1 !! l = w.1 !! l.
Proof.
  intros Hl Hid. rewrite <-(target_other id l Hl).
  pose proof (target_unshared id l Hl Hid) as Hne.
  unfold reduced. case_decide; [|done].
  destruct (target w action) as [h l']. by apply startClone_heap_ne.
Qed.

(** The session a state denotes under the action's id after the session
    reducers, before any removal. *)
Lemma view_reduced id :
  view (reduced w action).1
    {| sessions := <[session_id action := (reduced w action).2]> (sessions w.2) |}
    !! id =
  if decide (id = session_id action)
  then Some (session_spec (type action)
               (default Src.empty_session (view w.1 w.2 !! id)) (value action))
  else view w.1 w.2 !! id.
Proof.
  rewrite lookup_view. cbn [sessions]. case_decide as Hid.
  - subst. rewrite lookup_insert_eq. cbn.
    destruct reduced_obj as (obj & -> & <-). done.
  - rewrite lookup_insert_ne, lookup_view by done.
    destruct (sessions w.2 !! id) as [l|] eqn:Hl; [cbn|done].
    by rewrite (reduced_other id l).
Qed.

End step_lemmas.

Lemma view_delete h ss k :
  view h {| sessions := delete k ss |} = delete k (view h {| sessions := ss |}).
Proof. apply omap_delete. Qed.

(** ** One step of the reducer *)

(** The session a state denotes under every id after a step. *)
Lemma view_step_lookup w action id :
  wf w →
  nullish (session_id action) = false →
  view (step w action).1 (step w action).2 !! id =
  if decide (type action = "removeSession" ∧ id = removal_key action) then None
  else if decide (id = session_id action)
  then Some (session_spec (type action)
               (default Src.empty_session (view w.1 w.2 !! id)) (value action))
  else view w.1 w.2 !! id.
Proof.
  intros Hwf Hnull. rewrite step_unfold, Hnull. cbv zeta. cbn [fst snd].
  destruct (decide (type action = "removeSession")) as [Hty|Hty].
  - rewrite view_delete. destruct (decide (id = removal_key action)) as [->|Hne].
    + rewrite decide_True by done. apply lookup_delete_eq.
    + rewrite decide_False, lookup_delete_ne by (done || by intros [_ ?]).
      by apply view_reduced.
  - rewrite decide_False by (by intros [? _]). by apply view_reduced.
Qed.

(** The references of the state after a step: the action's id refers to
    the object the action worked on, every other id to its object of
    before. *)
Lemma lookup_sessions_step w action id l :
  nullish (session_id action) = false →
  sessions (step w action).2 !! id = Some l →
  (id = session_id action ∧ l = (reduced w action).2) ∨
  (id ≠ session_id action ∧ sessions w.2 !! id = Some l).
Proof.
  intros Hnull. rewrite step_unfold, Hnull. cbv zeta. cbn [snd sessions].
  intros Hl. assert (<[session_id action := (reduced w action).2]> (sessions w.2)
                     !! id = Some l) as Hl'.
  { case_decide; [|done]. by apply lookup_delete_Some in Hl as [_ ?]. }
  apply lookup_insert_Some in Hl' as [[<- <-]|[? ?]]; auto.
Qed.

(** A step keeps the invariant. *)
Lemma wf_step w action : wf w → wf (step w action).
Proof.
  intros Hwf. destruct (nullish (session_id action)) eqn:Hnull.
  { by rewrite step_unfold, Hnull. }
  split.
  - intros id l Hl.
    assert ((step w action).1 = (reduced w action).1) as ->
      by (by rewrite step_unfold, Hnull).
    destruct (lookup_sessions_step _ _ _ _ Hnull Hl) as [[-> ->]|[Hid Hold]].
    + destruct (reduced_obj w action Hwf) as (obj & -> & _). eauto.
    + rewrite (reduced_other w action Hwf id l Hold Hid). by apply (proj1 Hwf id).
  - intros id1 id2 l Hl1 Hl2.
    destruct (lookup_sessions_step _ _ _ _ Hnull Hl1) as [[-> ->]|[Hid1 Hold1]];
      destruct (lookup_sessions_step _ _ _ _ Hnull Hl2) as [[-> E]|[Hid2 Hold2]];
      try done.
    + rewrite reduced_ref in Hold2.
      by destruct (target_unshared w action Hwf _ _ Hold2 Hid2).
    + subst. rewrite reduced_ref in Hold1.
      by destruct (target_unshared w action Hwf _ _ Hold1 Hid1).
    + by apply (proj2 Hwf _ _ l).
Qed.

Lemma initial_wf : wf (∅, initial_state).
Proof. split; intros ? ; intros; unfold initial_state in *; simplify_map_eq. Qed.

(** The invariant holds of every reachable heap and state. *)
Lemma wf_reachable w : reachable step (∅, initial_state) w → wf w.
Proof.
  apply (reachable_ind_inv step _ wf); [apply initial_wf|].
  intros s a. apply wf_step.
Qed.

(** ** The two builds *)

(** C4: on an action both builds know (a session id, no [registerStarted],
    a removal that names its session in [value]) a step of this build,
    read through [abs], is a step of the source build. *)
Theorem step_refines_src w action :
  wf w → common action → abs (step w action) = Src.step (abs w) action.
Proof.
  intros Hwf (Hnull & Hreg & Hrm). unfold abs.
  destruct (Src.step _ action) as [ss] eqn:Hstep. f_equal.
  apply map_eq. intros id. rewrite view_step_lookup by done.
  change ss with (Src.sessions (Src.mkState ss)).
  rewrite <-Hstep, Src.lookup_step. cbn [Src.sessions]. rewrite Hnull.
  unfold removal_key, session_spec, Src.session_spec.
  destruct (decide (type action = "removeSession")) as [Hty|Hty].
  - rewrite (Hrm Hty). repeat case_decide; destruct_and?; try done; tauto.
  - repeat case_decide; destruct_and?; try done; tauto.
Qed.

(** C35: an action without a session id changes neither heap nor state,
    whatever its type: this build ignores a removal that names its session
    in [value] only. *)
Theorem mainReducer_no_session_id h state action :
  nullish (session_id action) = true →
  mainReducer h state action = (h, default initial_state state).
Proof. intros Hnull. unfold mainReducer. by rewrite Hnull. Qed.

(** C34: a removal whose value is null removes the session its
    [session_id] names. *)
Theorem removeSession_default w action :
  type action = "removeSession" →
  nullish (session_id action) = false →
  nullish (value action) = true →
  sessions (step w action).2 !! session_id action = None.
Proof.
  intros Hty Hnull Hval. rewrite step_unfold, Hnull. cbv zeta. cbn [snd sessions].
  rewrite decide_True by done. unfold removal_key. rewrite Hval.
  apply lookup_delete_eq.
Qed.

(** ** The update in place *)

(** C22: an action for a known session that is no removal returns a state
    equal to the one it was given: the reference map is the same. *)
Theorem step_same_state w action :
  is_Some (sessions w.2 !! session_id action) →
  type action ≠ "removeSession" →
  (step w action).2 = w.2.
Proof.
  intros [l Hl] Hty. rewrite step_unfold. case_nullish; [done|].
  cbv zeta. cbn [snd]. rewrite decide_False, reduced_ref by done.
  unfold target. rewrite Hl. cbn [snd]. rewrite insert_id by done.
  by destruct w as [? []].
Qed.

(** C1: [startClone] of a new URL in a known session changes what the
    state of before denotes: read in the heap of after, the previous state
    holds the URL with status [start]. *)
Theorem step_mutates_previous_state w id l obj url :
  nullish id = false →
  sessions w.2 !! id = Some l →
  w.1 !! l = Some obj →
  repos obj !! url = None →
  view w.1 w.2 !! id = Some (Src.mkSession (repos obj)) ∧
  view (step w ⟦"startClone"; id; url⟧).1 w.2 !! id =
    Some (Src.mkSession (<[url := Src.start]> (repos obj))).
Proof.
  intros Hnull Hl Hobj Hurl. split; [by apply (lookup_view_Some _ _ _ l)|].
  rewrite step_unfold. cbn [session_id]. rewrite Hnull. cbv zeta. cbn [fst].
  unfold reduced, target. cbn [type session_id value].
  rewrite decide_True, Hl by done.
  rewrite lookup_view, Hl. cbn. rewrite Hobj, Hurl. cbn [fst].
  by rewrite lookup_insert_eq.
Qed.

(** ** The invariant and the denoted value *)

(** C33: the session a state denotes under every id after an action with a
    session id, in a well-formed heap: none under the id a removal names
    (its value, or its session id when the value is null); under the
    action's id what [startClone] of the source build returns on the
    session of before (an empty one if unknown), or that session itself
    for another type; elsewhere the session of before. *)
Theorem lookup_view_step w action id :
  wf w →
  nullish (session_id action) = false →
  view (step w action).1 (step w action).2 !! id =
  if decide (type action = "removeSession" ∧ id = removal_key action) then None
  else if decide (id = session_id action)
  then Some (session_spec (type action)
               (default Src.empty_session (view w.1 w.2 !! id)) (value action))
  else view w.1 w.2 !! id.
Proof. apply view_step_lookup. Qed.

(** [mainReducer] keeps the invariant of heap and state: after an
    action every reference still points to an object and no two session
    ids share one. *)
Theorem step_wf w action : wf w → wf (step w action).
Proof. apply wf_step. Qed.

(** C11: every heap and state the reducer reaches from the empty heap and
    [initial_state] is well formed. *)
Theorem reachable_wf w : reachable step (∅, initial_state) w → wf w.
Proof.
  apply (reachable_ind_inv step _ wf); [apply initial_wf|].
  intros s a. apply wf_step.
Qed.

(** ** Concrete runs *)

Lemma demo_wf : wf demo_world.
Proof.
  apply wf_reachable.
  apply (reachable_run step _ [⟦"startClone"; "s1"; "https://host/a.git"⟧]).
Qed.

(** The second submission returns the state it was given. *)
Example demo_state_unchanged : (step demo_world demo_action).2 = demo_world.2.
Proof. vm_compute. reflexivity. Qed.

(** Yet the session now holds both URLs, in the state of before too. *)
Example demo_previous_state_changed :
  view (step demo_world demo_action).1 demo_world.2 !! JStr "s1" =
  Some (Src.mkSession (<[JStr "https://host/b.git" := Src.start]>
                         (<[JStr "https://host/a.git" := Src.start]> ∅))).
Proof. vm_compute. reflexivity. Qed.

Lemma lookup_view_step_witness :
  view (step demo_world demo_action).1 (step demo_world demo_action).2 !! JStr "s1" =
  Some (Src.startClone
          (default Src.empty_session (view demo_world.1 demo_world.2 !! JStr "s1"))
          "https://host/b.git").
Proof.
  etrans; [apply (lookup_view_step demo_world demo_action "s1" demo_wf eq_refl)|].
  vm_compute. reflexivity.
Defined.

Lemma step_wf_witness : wf (step demo_world demo_action).
Proof. apply (step_wf demo_world demo_action demo_wf). Defined.

Lemma reachable_wf_witness : wf demo_world.
Proof.
  apply (reachable_wf demo_world).
  apply (reachable_run step _ [⟦"startClone"; "s1"; "https://host/a.git"⟧]).
Defined.

Lemma step_refines_src_witness :
  abs (step demo_world demo_action) = Src.step (abs demo_world) demo_action.
Proof.
  apply (step_refines_src demo_world demo_action demo_wf).
  split; [reflexivity|]. split; discriminate.
Defined.

Lemma mainReducer_no_session_id_witness :
  mainReducer demo_world.1 (Some demo_world.2) ⟦"removeSession"; JUndefined; "s1"⟧ =
  demo_world.
Proof.
  apply (mainReducer_no_session_id demo_world.1 (Some demo_world.2)
           ⟦"removeSession"; JUndefined; "s1"⟧).
  reflexivity.
Defined.

Lemma removeSession_default_witness :
  sessions (step demo_world ⟦"removeSession"; "s1"; JUndefined⟧).2 !! JStr "s1" = None.
Proof.
  apply (removeSession_default demo_world ⟦"removeSession"; "s1"; JUndefined⟧);
    reflexivity.
Defined.

Lemma step_same_state_witness : (step demo_world demo_action).2 = demo_world.2.
Proof.
  apply (step_same_state demo_world demo_action); [|discriminate].
  vm_compute. eauto.
Defined.

Lemma step_mutates_previous_state_witness :
  view demo_world.1 demo_world.2 !! JStr "s1" =
    Some (Src.mkSession (<[JStr "https://host/a.git" := Src.start]> ∅)) ∧
  view (step demo_world ⟦"startClone"; "s1"; "https://host/b.git"⟧).1 demo_world.2
    !! JStr "s1" =
    Some (Src.mkSession (<[JStr "https://host/b.git" := Src.start]>
                           (<[JStr "https://host/a.git" := Src.start]> ∅))).
Proof.
  refine (step_mutates_previous_state demo_world "s1" 1%positive
            (mkObj (<[JStr "https://host/a.git" := Src.start]> ∅))
            "https://host/b.git" _ _ _ _);
    vm_compute; reflexivity.
Defined.

End Lib.
