(* ===== verification/HandleChanges.v ===== *)
(** * The change handler of [src/src/handle_changes.js]

    Module [Handler] models the listener that the store calls after every
    action.  [handleChanges] compares the state with the one it saw last;
    for every session that differs it calls [handleSessionChanges], which
    starts [startClone] for every repository whose status is [start] and
    [getFiles] for every one whose status is [clone_done]; then it calls
    [removeUnusedFiles].

    The functions of the file talk to the outside through callbacks
    ([fs.exists], [glob], [child_process.exec], [rimraf]) and through
    [actions.setRepoStatus].  The model makes both explicit: a function
    returns the list of [request]s it issues, in order, and a request
    carries the [callback] that the environment resumes with a [response];
    [resume] is the body of each callback.  Nothing here decides when a
    callback runs.

    Session ids and URLs are strings, as the file's Flow annotations say
    ([id: string, url: string]).  A path is the list of its segments:
    [path.join] appends, [path.relative] drops the common prefix and
    climbs out of what is left of the base.  A session id and a slug are
    taken to be one segment each.  [config.session_data] and SHA-1 are
    fields of the class [Platform].

    The theorems give the calls [handleChanges] makes, by membership (the
    order of [forEach] is that of [map_to_list]); show that a handled
    session has all its [start] repositories started, changed or not; that
    an unchanged state makes no call; and they give the requests of each
    function and callback on every branch, the shape of a slug and of the
    listed files, and the set of folders the sweep removes. *)

From stdpp Require Import gmap strings list.
From S2P Require Import Prelude.

Module Handler.

(** ** Data *)

(** The statuses the file tests for and dispatches. *)
Inductive RepoStatus : Type :=
| start
| cloning
| clone_done
| done
| failed.

#[global] Instance RepoStatus_eq_dec : EqDecision RepoStatus.
Proof. solve_decision. Defined.

(** A path as its segments. *)
Abbreviation path := (list string) (only parsing).

(** A repository entry as the handler reads it: [repo.get('status')],
    [repo.get('slug')], and the [files] it dispatches with [done]. *)
Record RepoEntry : Type := mkRepo {
  status : RepoStatus;
  slug : option string;
  files : option (list path);
}.

#[global] Instance RepoEntry_eq_dec : EqDecision RepoEntry.
Proof. solve_decision. Defined.

(** A session: its [repos], and the removal timer that [lib/app.js] keeps
    in it (it takes part in [session.equals]). *)
Record Session : Type := mkSession {
  repos : gmap string RepoEntry;
  timeout : option nat;
}.

#[global] Instance Session_eq_dec : EqDecision Session.
Proof. solve_decision. Defined.

(** The state: [state.get('sessions')]. *)
Record State : Type := mkState {
  sessions : gmap string Session;
}.

#[global] Instance State_eq_dec : EqDecision State.
Proof. solve_decision. Defined.

(** The value of a [setRepoStatus] action: [{url, status, slug, files}]. *)
Record RepoUpdate : Type := mkUpdate {
  url : string;
  new_status : RepoStatus;
  new_slug : option string;
  new_files : option (list path);
}.

#[global] Instance RepoUpdate_eq_dec : EqDecision RepoUpdate.
Proof. solve_decision. Defined.

(** The options [getFiles] passes to [glob]. *)
Record GlobOptions : Type := mkGlob {
  dot : bool;
  nodir : bool;
  ignore : option path;
}.

#[global] Instance GlobOptions_eq_dec : EqDecision GlobOptions.
Proof. solve_decision. Defined.

Inductive log_level : Type := log_error | log_warn.

#[global] Instance log_level_eq_dec : EqDecision log_level.
Proof. solve_decision. Defined.

(** The callbacks of the file, with the variables they close over. *)
Inductive callback : Type :=
| on_exists (id url slug : string)
| on_exit (id url : string)
| on_listed (id url : string)
| on_folders (keys : gset string)
| on_removed.

#[global] Instance callback_eq_dec : EqDecision callback.
Proof. solve_decision. Defined.

(** What a function of the file asks of the outside. *)
Inductive request : Type :=
| setRepoStatus (id : string) (value : RepoUpdate)
| fs_exists (folder : path) (k : callback)
| glob (pattern : path) (options : GlobOptions) (k : callback)
| exec (command : string) (k : callback)
| rimraf (p : path) (k : callback)
| console (level : log_level) (msg : string).

#[global] Instance request_eq_dec : EqDecision request.
Proof. solve_decision. Defined.

(** What the outside calls a callback with. *)
Inductive response : Type :=
| exists_is (b : bool)
| exited (processStatus : option Z)
| globbed (result : option (list path))
| removed (err : bool).

(** What the handler needs from its platform: the folder of the session
    data and SHA-1 in hexadecimal, forty characters long. *)
Class Platform : Type := {
  session_data : path;
  sha1_hex : string → string;
  sha1_hex_length : ∀ s, String.length (sha1_hex s) = 40;
}.

(** ** Paths *)

(** The number of leading segments two paths share. *)
Fixpoint common_prefix (p q : path) : nat :=
  match p, q with
  | a :: p', b :: q' => if decide (a = b) then S (common_prefix p' q') else 0
  | _, _ => 0
  end.

(** [path.relative(from, to)] on segment lists. *)
Definition relative (from to : path) : path :=
  let n := common_prefix from to in
  replicate (length from - n) ".." ++ drop n to.

(** A path as the string a shell command holds. *)
Definition render (p : path) : string := String.concat "/" p.

(** ** Operations *)

Section operations.
Context `{Platform}.

(** [toFolder(id, slug)]. *)
Definition toFolder (id slug : string) : path := session_data ++ [id; slug].

(** [hash(str)]: the first seven characters of the digest. *)
Definition hash (str : string) : string := String.substring 0 7 (sha1_hex str).

(** [fetch(id, url, slug)]: the command line it executes. *)
Definition fetch (id url slug : string) : string :=
  "cd " +:+ render (toFolder id slug) +:+ " && git fetch && git reset --hard origin/HEAD".

(** [clone(id, url, slug)]: the command line it executes. *)
Definition clone (id url slug : string) : string :=
  "git clone --depth=1 " +:+ url +:+ " " +:+ render (toFolder id slug).

(** [reportStatus(id, url, processStatus)]. *)
Definition reportStatus (id url : string) (processStatus : option Z) : list request :=
  if decide (processStatus ≠ Some 0%Z)
  then [console log_warn "git clone/fetch failed";
        setRepoStatus id (mkUpdate url failed None None)]
  else [setRepoStatus id (mkUpdate url clone_done None None)].

(** [startClone(id, url)]: asks whether the folder exists. *)
Definition startClone (id url : string) : list request :=
  let slug := hash url in
  let folder := toFolder id slug in
  [fs_exists folder (on_exists id url slug)].

(** The callback of [startClone]: starts the process, sets the status to
    [cloning], and waits for the exit. *)
Definition startClone_callback (id url slug : string) (exists_ : bool) : list request :=
  let command := if exists_ then fetch id url slug else clone id url slug in
  [exec command (on_exit id url);
   setRepoStatus id (mkUpdate url cloning (Some slug) None)].

(** [getFiles(id, url, slug)]. *)
Definition getFiles (id url : string) (slug : option string) : list request :=
  match slug with
  | None =>
      [console log_error "no slug when trying to list files";
       setRepoStatus id (mkUpdate url failed None None)]
  | Some slug =>
      let folder := toFolder id slug in
      let options := mkGlob true true (Some (folder ++ [".git"; "**"; "*"])) in
      [glob (folder ++ ["**"; "*"]) options (on_listed id url)]
  end.

(** The callback of [getFiles]. *)
Definition getFiles_callback (id url : string) (result : option (list path))
    : list request :=
  match result with
  | None =>
      [console log_error "glob";
       setRepoStatus id (mkUpdate url failed None None)]
  | Some filepaths =>
      let files := relative (session_data ++ [id]) <$> filepaths in
      [setRepoStatus id (mkUpdate url done None (Some files))]
  end.

(** [removeUnusedFiles(sessions)]. *)
Definition removeUnusedFiles (sessions : gmap string Session) : list request :=
  let keys := dom sessions in
  [glob (session_data ++ ["*"]) (mkGlob false false None) (on_folders keys)].

(** The callback of [removeUnusedFiles]: removes every listed folder whose
    name is no key of the sessions. *)
Definition removeUnusedFiles_callback (keys : gset string)
    (result : option (list path)) : list request :=
  match result with
  | None => [console log_error "glob"]
  | Some files =>
      let folder_ids := relative session_data <$> files in
      folder_ids ≫= λ id,
        if decide (render id ∈ keys) then []
        else [rimraf (session_data ++ id) on_removed]
  end.

(** The callback of [rimraf]. *)
Definition rimraf_callback (err : bool) : list request :=
  if err then [console log_error "rimraf"] else [].

(** The body of each callback on what it is called with; a callback is
    called with the result of its own library only ([fits]). *)
Definition resume (k : callback) (r : response) : list request :=
  match k, r with
  | on_exists id url slug, exists_is b => startClone_callback id url slug b
  | on_exit id url, exited processStatus => reportStatus id url processStatus
  | on_listed id url, globbed result => getFiles_callback id url result
  | on_folders keys, globbed result => removeUnusedFiles_callback keys result
  | on_removed, removed err => rimraf_callback err
  | _, _ => []
  end.

(** The result each library calls its callback with: [fs.exists] a
    boolean, the [exit] event of a process its code, [glob] the paths it
    lists or an error, [rimraf] an error or none. *)
Definition fits (k : callback) (r : response) : bool :=
  match k, r with
  | on_exists _ _ _, exists_is _ | on_exit _ _, exited _
  | on_listed _ _, globbed _ | on_folders _, globbed _ | on_removed, removed _ => true
  | _, _ => false
  end.

(** The callback of [session.get('repos').forEach]. *)
Definition handleRepo (id : string) (entry : string * RepoEntry) : list request :=
  match status entry.2 with
  | start => startClone id entry.1
  | clone_done => getFiles id entry.1 (slug entry.2)
  | _ => []
  end.

(** [handleSessionChanges(session, id)]. *)
Definition handleSessionChanges (session : Session) (id : string) : list request :=
  map_to_list (repos session) ≫= handleRepo id.

(** The callback of [sessions.forEach] in [handleChanges]. *)
Definition handleSession (previous_sessions : gmap string Session)
    (entry : string * Session) : list request :=
  if decide (previous_sessions !! entry.1 = Some entry.2) then []
  else handleSessionChanges entry.2 entry.1.

(** [handleChanges()] with the state and [prev_state] as arguments: the
    requests it issues and the new [prev_state]. *)
Definition handleChanges (state prev_state : State) : list request * State :=
  let requests :=
    if decide (state = prev_state) then []
    else
      (map_to_list (sessions state) ≫= handleSession (sessions prev_state))
      ++ removeUnusedFiles (sessions state) in
  (requests, state).

(** ** Running the callbacks

    An environment answers the requests that carry a callback.  One round
    runs, in order, the callbacks of the requests the environment answers;
    [settle] collects the requests of the rounds one after the other,
    which is the order of an event loop that answers every request once
    the code that issued it has returned. *)

(** The callback a request carries. *)
Definition callback_of (r : request) : option callback :=
  match r with
  | fs_exists _ k | glob _ _ k | exec _ k | rimraf _ k => Some k
  | setRepoStatus _ _ | console _ _ => None
  end.

(** The requests of the callbacks that answer [requests]. *)
Definition round (env : request → option response) (requests : list request)
    : list request :=
  requests ≫= λ r,
    match callback_of r, env r with
    | Some k, Some answer => resume k answer
    | _, _ => []
    end.

(** The requests of up to [fuel] rounds, in the order they are issued. *)
Fixpoint settle (fuel : nat) (env : request → option response)
    (requests : list request) : list request :=
  match fuel with
  | 0 => requests
  | S fuel => requests ++ settle fuel env (round env requests)
  end.

(** The [setRepoStatus] actions among some requests. *)
Definition dispatched (requests : list request) : list (string * RepoUpdate) :=
  omap (λ r, match r with setRepoStatus id v => Some (id, v) | _ => None end) requests.

(** How many rounds can follow a callback, and a request. *)
Definition callback_rank (k : callback) : nat :=
  match k with
  | on_exists _ _ _ | on_folders _ => 1
  | on_exit _ _ | on_listed _ _ | on_removed => 0
  end.

Definition rank (r : request) : nat :=
  match callback_of r with
  | Some k => S (callback_rank k)
  | None => 0
  end.

End operations.

(** ** Reference definitions *)

(** The entry of a URL in a session of a state. *)
Definition entry_of (state : State) (id url : string) : option RepoEntry :=
  sessions state !! id ≫= λ session, repos session !! url.

(** A status report that sets [cloning] carries the slug, and one that
    sets [done] carries the files. *)
Definition value_ok (value : RepoUpdate) : Prop :=
  (new_status value = cloning → is_Some (new_slug value)) ∧
  (new_status value = done → is_Some (new_files value)).

Definition request_ok (r : request) : Prop :=
  match r with
  | setRepoStatus _ value => value_ok value
  | _ => True
  end.

(** ** A concrete platform and a concrete change *)

(** A platform to run the definitions on: the digest is that of the empty
    string for every input, which is enough to fix the shape of a slug. *)
Definition demo_platform : Platform := {|
  session_data := ["session_data"];
  sha1_hex := λ _, "da39a3ee5e6b4b0d3255bfef95601890afd80709";
  sha1_hex_length := λ _, eq_refl;
|}.

(** A session with one submitted repository, before and after a request
    that only replaced the removal timer. *)
Definition demo_entry : RepoEntry := mkRepo start None None.

Definition demo_session (timer : nat) : Session :=
  mkSession {["https://host/a.git" := demo_entry]} (Some timer).

Definition demo_prev : State := mkState {["s1" := demo_session 1]}.

Definition demo_state : State := mkState {["s1" := demo_session 2]}.

(** An environment in which the folder does not exist and git succeeds. *)
Definition demo_env (r : request) : option response :=
  match r with
  | fs_exists _ _ => Some (exists_is false)
  | exec _ _ => Some (exited (Some 0%Z))
  | _ => None
  end.

(** * Theorems *)

(** ** Paths *)

Lemma common_prefix_app (p q : list string) : common_prefix p (p ++ q) = length p.
Proof. induction p as [|a p IH]; [by destruct q|]. cbn. by rewrite decide_True, IH. Qed.

(** The path of [base/rest] relative to [base] is [rest]. *)
Lemma relative_app (base rest : list string) : relative base (base ++ rest) = rest.
Proof.
  unfold relative. rewrite common_prefix_app, Nat.sub_diag. cbn.
  by rewrite drop_app_length.
Qed.

Section theorems.
Context `{Platform}.
Implicit Types (id url : string) (state prev_state : State) (r : request).

(** a slug has seven characters. *)
Theorem hash_length str : String.length (hash str) = 7.
Proof.
  unfold hash. apply length_substring. rewrite sha1_hex_length. lia.
Qed.

(** ** The handler *)

(** When the state equals the previous one the handler issues no
    request. *)
Theorem handleChanges_unchanged state : handleChanges state state = ([], state).
Proof. unfold handleChanges. by rewrite decide_True. Qed.

(** The state the handler was given is the previous state of the next call. *)
Lemma handleChanges_prev_state state prev_state :
  (handleChanges state prev_state).2 = state.
Proof. done. Qed.

Lemma elem_of_handleSessionChanges r session id :
  r ∈ handleSessionChanges session id ↔
  ∃ url entry, repos session !! url = Some entry ∧ r ∈ handleRepo id (url, entry).
Proof.
  unfold handleSessionChanges. rewrite list_elem_of_bind. split.
  - intros ([url entry] & Hr & Hin%elem_of_map_to_list). eauto.
  - intros (url & entry & Hin%elem_of_map_to_list & Hr). eauto.
Qed.

(** The requests of the handler, by membership. *)
Lemma elem_of_requests r state prev_state :
  r ∈ (handleChanges state prev_state).1 ↔
  state ≠ prev_state ∧
  ((∃ id session, sessions state !! id = Some session ∧
      sessions prev_state !! id ≠ Some session ∧
      r ∈ handleSessionChanges session id) ∨
   r ∈ removeUnusedFiles (sessions state)).
Proof.
  unfold handleChanges. cbn [fst]. case_decide as Heq.
  { split; [by intros ?%elem_of_nil|by intros [? _]]. }
  rewrite elem_of_app, list_elem_of_bind. split.
  - intros [([id session] & Hr & Hin%elem_of_map_to_list)|Hr]; [|by auto].
    unfold handleSession in Hr. cbn [fst snd] in Hr.
    case_decide; [by apply elem_of_nil in Hr|]. split; [done|]. left. eauto.
  - intros [_ [(id & session & Hs & Hprev & Hr)|Hr]]; [left|by right].
    exists (id, session). split; [|by apply elem_of_map_to_list].
    unfold handleSession. cbn [fst snd]. by rewrite decide_False.
Qed.

(** A session that differs from its previous value has every repository
    handled. *)
Lemma repo_handled state prev_state id session url entry r :
  sessions state !! id = Some session →
  sessions prev_state !! id ≠ Some session →
  repos session !! url = Some entry →
  r ∈ handleRepo id (url, entry) →
  r ∈ (handleChanges state prev_state).1.
Proof.
  intros Hs Hprev Hrepo Hr. apply elem_of_requests. split.
  { intros ->. by apply Hprev. }
  left. exists id, session. split_and!; [done..|].
  apply elem_of_handleSessionChanges. eauto.
Qed.

(** An entry that differs from its previous value is handled. *)
Lemma entry_handled state prev_state id url entry r :
  entry_of state id url = Some entry → entry_of prev_state id url ≠ Some entry →
  r ∈ handleRepo id (url, entry) → r ∈ (handleChanges state prev_state).1.
Proof.
  unfold entry_of. intros (session & Hs & He)%bind_Some Hprev Hr.
  eapply repo_handled; [done| |done..]. intros Hs'. by rewrite Hs' in Hprev.
Qed.

(** It has every repository at [start] started, *)
Lemma start_handled state prev_state id session url entry :
  sessions state !! id = Some session →
  sessions prev_state !! id ≠ Some session →
  repos session !! url = Some entry →
  status entry = start →
  fs_exists (toFolder id (hash url)) (on_exists id url (hash url))
    ∈ (handleChanges state prev_state).1.
Proof.
  intros Hs Hprev Hrepo Hstart. eapply repo_handled; [done..|].
  unfold handleRepo. cbn [fst snd]. rewrite Hstart. by apply list_elem_of_singleton.
Qed.

(** and every repository at [clone_done] that has its slug listed. *)
Lemma clone_done_handled state prev_state id session url entry sl :
  sessions state !! id = Some session →
  sessions prev_state !! id ≠ Some session →
  repos session !! url = Some entry →
  status entry = clone_done → slug entry = Some sl →
  glob (toFolder id sl ++ ["**"; "*"])
    (mkGlob true true (Some (toFolder id sl ++ [".git"; "**"; "*"]))) (on_listed id url)
    ∈ (handleChanges state prev_state).1.
Proof.
  intros Hs Hprev Hrepo Hst Hsl. eapply repo_handled; [done..|].
  unfold handleRepo. cbn [fst snd]. rewrite Hst, Hsl. by apply list_elem_of_singleton.
Qed.

(** C21: in a session that differs from its previous value, every repository
    whose status is [start] is started, whether or not that repository
    changed: the handler asks for the folder [toFolder id (hash url)]. *)
Theorem handled_session_starts_every_start state prev_state id session url entry :
  sessions state !! id = Some session →
  sessions prev_state !! id ≠ Some session →
  repos session !! url = Some entry →
  status entry = start →
  fs_exists (toFolder id (hash url)) (on_exists id url (hash url))
    ∈ (handleChanges state prev_state).1.
Proof. apply start_handled. Qed.

(** A session equal to its previous value gets no request. *)
Lemma handleSession_unchanged state prev_state id session :
  sessions state !! id = Some session →
  sessions prev_state !! id = Some session →
  handleSession (sessions prev_state) (id, session) = [].
Proof. intros Hs Hprev. unfold handleSession. cbn [fst snd]. by rewrite decide_True. Qed.

(** Whatever a callback is answered with, the status it reports when it
    sets [cloning] carries the slug. *)
Lemma resume_ok k (answer : response) : Forall request_ok (resume k answer).
Proof.
  assert (∀ i url st, st ≠ cloning → st ≠ done →
            request_ok (setRepoStatus i (mkUpdate url st None None))) as Hst
    by (by intros i url st ??; split).
  destruct k as [i u sl|i u|i u|keys|], answer as [b|code|res|err]; cbn [resume];
    try by constructor.
  - repeat apply Forall_cons_2; [done| |done]. by split; [eexists|].
  - unfold reportStatus. case_decide; repeat apply Forall_cons_2; try done; by apply Hst.
  - unfold getFiles_callback. destruct res; repeat apply Forall_cons_2;
      first [done|by apply Hst|by split; [|eexists]].
  - unfold removeUnusedFiles_callback. destruct res; [|by repeat constructor].
    apply Forall_forall. intros x (y & Hx & _)%list_elem_of_bind.
    case_decide; [by apply elem_of_nil in Hx|]. by apply list_elem_of_singleton in Hx as ->.
  - unfold rimraf_callback. destruct err; by repeat constructor.
Qed.

End theorems.

(** ** The rounds of callbacks end *)

Section rounds.
Context `{Platform}.
Implicit Types (env : request → option response) (requests : list request).

Lemma rank_le_2 (r : request) : rank r ≤ 2.
Proof. destruct r as [| |? ? k|? k|? k|]; try destruct k; cbn; lia. Qed.

Lemma resume_rank (k : callback) (answer : response) :
  Forall (λ r, rank r ≤ callback_rank k) (resume k answer).
Proof.
  destruct k, answer; cbn [resume callback_rank]; try by constructor.
  - repeat constructor.
  - unfold reportStatus. case_decide; repeat constructor.
  - unfold getFiles_callback. destruct result; repeat constructor.
  - unfold removeUnusedFiles_callback. destruct result; [|repeat constructor].
    apply Forall_bind, Forall_forall. intros id _. cbn.
    case_decide; repeat constructor.
  - unfold rimraf_callback. destruct err; repeat constructor.
Qed.

Lemma round_rank env requests n :
  Forall (λ r, rank r ≤ S n) requests → Forall (λ r, rank r ≤ n) (round env requests).
Proof.
  intros Hall. apply Forall_bind. eapply Forall_impl; [exact Hall|].
  intros r Hr. cbn. unfold rank in Hr.
  destruct (callback_of r) as [k|]; [|constructor].
  destruct (env r) as [answer|]; [|constructor].
  eapply Forall_impl; [apply resume_rank|]. cbn. lia.
Qed.

Lemma round_rank_0 env requests :
  Forall (λ r, rank r ≤ 0) requests → round env requests = [].
Proof.
  induction 1 as [|r requests Hr _ IH]; [done|].
  unfold round in *. cbn. rewrite IH. unfold rank in Hr.
  destruct (callback_of r); [lia|done].
Qed.

Lemma settle_nil fuel env : settle fuel env [] = [].
Proof. induction fuel; [done|]. cbn. done. Qed.

(** No request is left after three rounds. *)
Lemma round_3 env requests : round env (round env (round env requests)) = [].
Proof.
  apply round_rank_0. do 2 apply round_rank.
  apply Forall_forall. intros r _. apply rank_le_2.
Qed.

(** C24: the callbacks that follow any requests end within three rounds:
    more fuel than three adds no request. *)
Theorem settle_enough_fuel fuel env requests :
  3 ≤ fuel → settle fuel env requests = settle 3 env requests.
Proof.
  intros Hfuel. destruct fuel as [|[|[|fuel]]]; try lia.
  cbn [settle]. do 3 f_equal. rewrite round_3, settle_nil.
  by destruct fuel; cbn; rewrite ?app_nil_r.
Qed.

End rounds.

(** ** Clone, list, sweep *)

Section pipelines.
Context `{Platform}.
Implicit Types (env : request → option response) (id url : string).

Lemma round_nil env : round env [] = [].
Proof. done. Qed.

Lemma round_cons env r requests :
  round env (r :: requests) =
  match callback_of r, env r with
  | Some k, Some answer => resume k answer
  | _, _ => []
  end ++ round env requests.
Proof. done. Qed.

Lemma round_answered env r k answer requests :
  callback_of r = Some k → env r = Some answer →
  round env (r :: requests) = resume k answer ++ round env requests.
Proof. intros Hk Hr. by rewrite round_cons, Hk, Hr. Qed.

Lemma round_leaf env r requests :
  callback_of r = None → round env (r :: requests) = round env requests.
Proof. intros Hk. by rewrite round_cons, Hk. Qed.

(** C39: after every call of [reportStatus] exactly one status is
    dispatched: [clone_done] when the process exited with 0, [failed] for
    any other exit code and for none. *)
Theorem reportStatus_dispatched id url processStatus :
  dispatched (reportStatus id url processStatus) =
  [(id, mkUpdate url (if decide (processStatus = Some 0%Z) then clone_done else failed)
          None None)].
Proof. unfold reportStatus. by repeat case_decide. Qed.

(** C23: a call of [startClone] whose requests are answered issues, in this
    order: the test for the folder, the process (fetch in an existing
    folder, clone otherwise), the status [cloning] with the slug, and
    after the exit [clone_done] or [failed]. *)
Theorem clone_pipeline env id url (b : bool) processStatus :
  let slug := hash url in
  let command := if b then fetch id url slug else clone id url slug in
  env (fs_exists (toFolder id slug) (on_exists id url slug)) = Some (exists_is b) →
  env (exec command (on_exit id url)) = Some (exited processStatus) →
  settle 3 env (startClone id url) =
  [fs_exists (toFolder id slug) (on_exists id url slug);
   exec command (on_exit id url);
   setRepoStatus id (mkUpdate url cloning (Some slug) None)]
  ++ reportStatus id url processStatus.
Proof.
  intros slug command Hexists Hexit. unfold startClone. fold slug. cbn [settle].
  erewrite round_answered by done. cbn [resume]. unfold startClone_callback.
  fold command. rewrite round_nil, app_nil_r.
  erewrite round_answered by done. rewrite round_leaf, round_nil, app_nil_r by done.
  cbn [resume]. assert (round env (reportStatus id url processStatus) = []) as ->.
  { unfold reportStatus. by case_decide. }
  by rewrite app_nil_r.
Qed.

(** C37: the files that [getFiles] dispatches with [done] are the listed
    paths relative to the session's folder: a path below the repository's
    folder is listed as the slug followed by its path in the repository. *)
Theorem getFiles_callback_files id url slug (rests : list (list string)) :
  getFiles_callback id url (Some ((λ rest, toFolder id slug ++ rest) <$> rests)) =
  [setRepoStatus id (mkUpdate url done None (Some ((λ rest, slug :: rest) <$> rests)))].
Proof.
  unfold getFiles_callback, toFolder. do 4 f_equal.
  rewrite <-list_fmap_compose. apply list_fmap_ext. intros _ rest _. cbn.
  replace ((session_data ++ [id; slug]) ++ rest)
    with ((session_data ++ [id]) ++ slug :: rest) by by rewrite <-!app_assoc.
  apply relative_app.
Qed.

(** C38: listing ends in exactly one status: [failed] without a slug or
    when [glob] fails, [done] otherwise. *)
Theorem getFiles_dispatched env id url slug :
  (new_status ∘ snd) <$> dispatched (settle 3 env (getFiles id url slug)) =
  match slug with
  | None => [failed]
  | Some s =>
      match env (glob (toFolder id s ++ ["**"; "*"])
                   (mkGlob true true (Some (toFolder id s ++ [".git"; "**"; "*"])))
                   (on_listed id url)) with
      | Some (globbed (Some _)) => [done]
      | Some (globbed None) => [failed]
      | _ => []
      end
  end.
Proof.
  destruct slug as [s|]; [|done]. unfold getFiles. cbn [settle].
  rewrite round_cons, round_nil, app_nil_r. cbn [callback_of].
  destruct (env _) as [[| |[files|]|]|]; done.
Qed.

Lemma render_singleton (name : string) : render [name] = name.
Proof. done. Qed.

(** No folder named like a key is removed. *)
Lemma sweep_not_key (keys : gset string) result name k :
  name ∈ keys →
  rimraf (session_data ++ [name]) k ∉ removeUnusedFiles_callback keys result.
Proof.
  intros Hname. unfold removeUnusedFiles_callback.
  destruct result as [files|]; [|by intros [=]%list_elem_of_singleton].
  rewrite list_elem_of_bind. intros (id & Hin & _).
  case_decide as Hid; [by apply elem_of_nil in Hin|].
  apply list_elem_of_singleton in Hin. injection Hin as Hp%(inj (app _)) _.
  subst. by rewrite render_singleton in Hid.
Qed.

(** Every listed folder of the session data that is not named like a key
    is removed. *)
Lemma sweep_orphan (keys : gset string) files name :
  name ∉ keys →
  session_data ++ [name] ∈ files →
  rimraf (session_data ++ [name]) on_removed
    ∈ removeUnusedFiles_callback keys (Some files).
Proof.
  intros Hname Hin. unfold removeUnusedFiles_callback.
  apply list_elem_of_bind. exists [name]. split.
  - rewrite render_singleton, decide_False by done. by apply list_elem_of_singleton.
  - apply list_elem_of_fmap. exists (session_data ++ [name]).
    by rewrite relative_app.
Qed.

(** The sweep reports no status. *)
Lemma sweep_dispatched (keys : gset string) result :
  dispatched (removeUnusedFiles_callback keys result) = [].
Proof.
  unfold removeUnusedFiles_callback. destruct result as [files|]; [|done].
  induction (relative session_data <$> files) as [|id ids IH]; [done|].
  cbn. unfold dispatched in *. rewrite omap_app, IH. by case_decide.
Qed.

(** C27: the sweep removes every listed folder of the session data whose
    name is no key of the sessions it was started with. *)
Theorem sweep_removes_orphans (keys : gset string) files name :
  name ∉ keys →
  session_data ++ [name] ∈ files →
  rimraf (session_data ++ [name]) on_removed
    ∈ removeUnusedFiles_callback keys (Some files).
Proof. apply sweep_orphan. Qed.

(** C26: the sweep that [handleChanges] starts works on the sessions of the
    state it was called with: no answer of [glob] makes it remove the
    folder of one of these sessions. *)
Theorem handleChanges_sweep_spares_sessions state prev_state id result :
  state ≠ prev_state →
  is_Some (sessions state !! id) →
  ∃ keys, glob (session_data ++ ["*"]) (mkGlob false false None) (on_folders keys)
            ∈ (handleChanges state prev_state).1 ∧
    rimraf (session_data ++ [id]) on_removed ∉ resume (on_folders keys) (globbed result).
Proof.
  intros Hne Hid. exists (dom (sessions state)). split.
  - apply elem_of_requests. split; [done|]. right.
    by apply list_elem_of_singleton.
  - apply sweep_not_key. by apply elem_of_dom.
Qed.

End pipelines.

(** ** Properties of the handler and the sweep *)

Section properties.
Context `{Platform}.

(** [path.relative] undoes [path.join]: the path of [base/rest] relative
    to [base] is [rest]. *)
Theorem relative_join (base rest : list string) : relative base (base ++ rest) = rest.
Proof. apply relative_app. Qed.

(** C25: the requests of the handler are those of [handleSessionChanges] for
    every session that is not equal to the session the previous state
    holds under the same id, and those of [removeUnusedFiles]; there are
    none when the state equals the previous one. *)
Theorem elem_of_handleChanges r state prev_state :
  r ∈ (handleChanges state prev_state).1 ↔
  state ≠ prev_state ∧
  ((∃ id session, sessions state !! id = Some session ∧
      sessions prev_state !! id ≠ Some session ∧
      r ∈ handleSessionChanges session id) ∨
   r ∈ removeUnusedFiles (sessions state)).
Proof. apply elem_of_requests. Qed.

(** The sweep removes no folder named like a key of the sessions it
    was started with, whatever [glob] lists. *)
Theorem sweep_spares_keys (keys : gset string) result name k :
  name ∈ keys →
  rimraf (session_data ++ [name]) k ∉ removeUnusedFiles_callback keys result.
Proof. apply sweep_not_key. Qed.

End properties.

(** ** Concrete runs *)

Section demo.
#[local] Existing Instance demo_platform.

(** The repository has not changed, the timer has, and the clone is
    started again. *)
Example demo_restart :
  (handleChanges demo_state demo_prev).1 =
  [fs_exists ["session_data"; "s1"; "da39a3e"]
     (on_exists "s1" "https://host/a.git" "da39a3e");
   glob ["session_data"; "*"] (mkGlob false false None) (on_folders {["s1"]})].
Proof. vm_compute. reflexivity. Qed.

Example demo_clone_dispatched :
  dispatched (settle 3 demo_env (startClone "s1" "https://host/a.git")) =
  [("s1", mkUpdate "https://host/a.git" cloning (Some "da39a3e") None);
   ("s1", mkUpdate "https://host/a.git" clone_done None None)].
Proof. vm_compute. reflexivity. Qed.

Lemma handled_session_starts_every_start_witness :
  repos (demo_session 2) !! "https://host/a.git" =
    repos (demo_session 1) !! "https://host/a.git" ∧
  fs_exists (toFolder "s1" (hash "https://host/a.git"))
    (on_exists "s1" "https://host/a.git" (hash "https://host/a.git"))
    ∈ (handleChanges demo_state demo_prev).1.
Proof.
  split; [reflexivity|].
  apply (handled_session_starts_every_start demo_state demo_prev "s1"
           (demo_session 2) "https://host/a.git" demo_entry);
    [reflexivity| |reflexivity|reflexivity].
  vm_compute. intros Heq. discriminate Heq.
Defined.

Lemma settle_enough_fuel_witness :
  settle 5 demo_env (startClone "s1" "https://host/a.git") =
  settle 3 demo_env (startClone "s1" "https://host/a.git").
Proof. apply (settle_enough_fuel 5). lia. Defined.

Lemma clone_pipeline_witness :
  settle 3 demo_env (startClone "s1" "https://host/a.git") =
  [fs_exists (toFolder "s1" "da39a3e") (on_exists "s1" "https://host/a.git" "da39a3e");
   exec (clone "s1" "https://host/a.git" "da39a3e") (on_exit "s1" "https://host/a.git");
   setRepoStatus "s1" (mkUpdate "https://host/a.git" cloning (Some "da39a3e") None);
   setRepoStatus "s1" (mkUpdate "https://host/a.git" clone_done None None)].
Proof.
  exact (clone_pipeline demo_env "s1" "https://host/a.git" false (Some 0%Z)
           eq_refl eq_refl).
Defined.

Lemma sweep_spares_keys_witness :
  rimraf (session_data ++ ["s1"]) on_removed
    ∉ removeUnusedFiles_callback {["s1"]} (Some [["session_data"; "s1"]]).
Proof. apply sweep_spares_keys. by apply elem_of_singleton. Defined.

Lemma sweep_removes_orphans_witness :
  rimraf (session_data ++ ["gone"]) on_removed
    ∈ removeUnusedFiles_callback {["s1"]}
        (Some [["session_data"; "s1"]; ["session_data"; "gone"]]).
Proof.
  apply sweep_removes_orphans.
  - intros Hin%elem_of_singleton. discriminate Hin.
  - apply list_elem_of_lookup. by exists 1.
Defined.

Lemma handleChanges_sweep_spares_sessions_witness :
  ∃ keys, glob (session_data ++ ["*"]) (mkGlob false false None) (on_folders keys)
            ∈ (handleChanges demo_state demo_prev).1 ∧
    rimraf (session_data ++ ["s1"]) on_removed
      ∉ resume (on_folders keys) (globbed (Some [["session_data"; "s1"]])).
Proof.
  apply (handleChanges_sweep_spares_sessions demo_state demo_prev "s1").
  - vm_compute. intros Heq. discriminate Heq.
  - vm_compute. eauto.
Defined.

End demo.

End Handler.
