(* ===== verification/Actions.v ===== *)
(** * The actions and the reducer they are dispatched to

    [src/src/handle_changes.js] and [src/lib/app.js] dispatch through
    [actions.startClone], [actions.setRepoStatus], [actions.removeSession]
    and [actions.setTimeout]; the module that defines them and the reducer
    that handles [setRepoStatus] and [setTimeout] are in no file of the
    repository.  This file states what the two callers rely on as an
    interface: the vocabulary of actions ([action]) and the class
    [Reducer] with its laws.  [Machine.v] gives the reducer the
    specification describes and shows that it satisfies the laws;
    [App.v] is proved against the class. *)

From stdpp Require Import gmap strings list.
From S2P Require Import Prelude HandleChanges.

(** The calls of the action creators.  A session id is [None] when the
    caller passes [undefined] ([lib/app.js] does for a request without a
    session). *)
Inductive action : Type :=
| startClone (session_id : option string) (url : string)
| setRepoStatus (session_id : option string) (value : Handler.RepoUpdate)
| removeSession (session_id : option string)
| setTimeout (session_id : option string) (timeout : nat).

#[global] Instance action_eq_dec : EqDecision action.
Proof. solve_decision. Defined.

(** The session an action names. *)
Definition action_session (a : action) : option string :=
  match a with
  | startClone id _ | setRepoStatus id _ | removeSession id | setTimeout id _ => id
  end.

(** Whether the action can change the timer a session records. *)
Definition touches_timer (a : action) : bool :=
  match a with
  | removeSession _ | setTimeout _ _ => true
  | startClone _ _ | setRepoStatus _ _ => false
  end.

(** The session a state holds under an id, or the empty session a
    session-scoped action starts from. *)
Definition session_or_empty (state : Handler.State) (id : string) : Handler.Session :=
  default (Handler.mkSession ∅ None) (Handler.sessions state !! id).

(** What the callers rely on. *)
Class Reducer : Type := {
  reduce : Handler.State → action → Handler.State;
  (** An action without a session id is ignored. *)
  reduce_ignored state a :
    action_session a = None → reduce state a = state;
  (** An action changes no session but the one it names. *)
  reduce_frame state a id :
    action_session a ≠ Some id →
    Handler.sessions (reduce state a) !! id = Handler.sessions state !! id;
  (** [removeSession] removes the session. *)
  reduce_removeSession state id :
    Handler.sessions (reduce state (removeSession (Some id))) !! id = None;
  (** [setTimeout] records the timer and keeps the repositories; it
      creates the session if it is unknown. *)
  reduce_setTimeout state id timeout :
    Handler.sessions (reduce state (setTimeout (Some id) timeout)) !! id =
    Some (Handler.mkSession (Handler.repos (session_or_empty state id)) (Some timeout));
  (** The other actions leave a session under the id they name, with the
      timer it had. *)
  reduce_keeps_timer state a id :
    action_session a = Some id → touches_timer a = false →
    Handler.timeout <$> Handler.sessions (reduce state a) !! id =
    Some (Handler.timeout (session_or_empty state id));
}.
