(* ===== verification/Machine.v ===== *)
(** * The reducer the specification describes

    Module [Machine] is the reducer for the four actions of [Actions.v],
    written from the specification's transition table: the repository has
    no file that handles [setRepoStatus] or [setTimeout].  A session-scoped
    action creates the session it names if it is unknown; an action without
    a session id is ignored; [removeSession] removes the session.  A
    repository entry moves [start → cloning → clone_done → done], to
    [failed] from every status, and back to [start] from [done] on a new
    [startClone]; every other request leaves it as it is.

    The file shows that this reducer satisfies the laws of the class
    [Reducer] and gives the status machine as a relation that every action
    respects. *)

From stdpp Require Import gmap strings list.
From S2P Require Import Prelude HandleChanges Actions.

Module Machine.

Import Handler.

(** ** Operations *)

(** The entry a [startClone] starts from. *)
Definition fresh_entry : RepoEntry := mkRepo start None None.

(** [startClone] on the entry of a URL: an absent or [done] entry becomes
    [start]; any other is left alone. *)
Definition start_entry (entry : option RepoEntry) : RepoEntry :=
  match entry with
  | None => fresh_entry
  | Some e => if decide (status e = done) then fresh_entry else e
  end.

(** [setRepoStatus] on a known entry, by the table. *)
Definition update_entry (e : RepoEntry) (value : RepoUpdate) : RepoEntry :=
  match new_status value, status e with
  | cloning, start => mkRepo cloning (new_slug value) (files e)
  | clone_done, cloning => mkRepo clone_done (slug e) (files e)
  | done, clone_done => mkRepo done (slug e) (new_files value)
  | failed, _ => mkRepo failed (slug e) (files e)
  | _, _ => e
  end.

(** A session-scoped action on the repositories of its session. *)
Definition reduce_repos (repos : gmap string RepoEntry) (a : action)
    : gmap string RepoEntry :=
  match a with
  | Actions.startClone _ url => <[url := start_entry (repos !! url)]> repos
  | Actions.setRepoStatus _ value =>
      match repos !! Handler.url value with
      | Some e => <[Handler.url value := update_entry e value]> repos
      | None => repos
      end
  | removeSession _ | setTimeout _ _ => repos
  end.

(** A session-scoped action on its session. *)
Definition reduce_session (session : Session) (a : action) : Session :=
  mkSession (reduce_repos (repos session) a)
    (match a with setTimeout _ t => Some t | _ => timeout session end).

(** The reducer. *)
Definition reducer (state : State) (a : action) : State :=
  match action_session a with
  | None => state
  | Some id =>
      match a with
      | removeSession _ => mkState (delete id (sessions state))
      | _ => mkState (<[id := reduce_session (session_or_empty state id) a]>
                        (sessions state))
      end
  end.

(** ** Reference definitions *)

(** The status of a URL in a session of a state. *)
Definition status_of (state : State) (id url : string) : option RepoStatus :=
  sessions state !! id ≫= λ session, status <$> repos session !! url.

(** The moves of one URL's status that an action can cause. *)
Inductive status_trans : option RepoStatus → option RepoStatus → Prop :=
| trans_stay o : status_trans o o
| trans_submit : status_trans None (Some start)
| trans_resubmit : status_trans (Some done) (Some start)
| trans_cloning : status_trans (Some start) (Some cloning)
| trans_clone_done : status_trans (Some cloning) (Some clone_done)
| trans_done : status_trans (Some clone_done) (Some done)
| trans_failed st : status_trans (Some st) (Some failed)
| trans_removed o : status_trans o None.

(** * Lemmas *)

Lemma reducer_ignored state a : action_session a = None → reducer state a = state.
Proof. unfold reducer. by intros ->. Qed.

Lemma lookup_reducer state a id :
  sessions (reducer state a) !! id =
  match action_session a with
  | Some id' =>
      if decide (id' = id) then
        match a with
        | removeSession _ => None
        | _ => Some (reduce_session (session_or_empty state id) a)
        end
      else sessions state !! id
  | None => sessions state !! id
  end.
Proof.
  unfold reducer. destruct (action_session a) as [id'|] eqn:Ha; [|done].
  destruct a; cbn [sessions]; case_decide; simplify_map_eq; done.
Qed.

Lemma reducer_frame state a id :
  action_session a ≠ Some id → sessions (reducer state a) !! id = sessions state !! id.
Proof.
  intros Hne. rewrite lookup_reducer. destruct (action_session a); [|done].
  rewrite decide_False; [done|congruence].
Qed.

Lemma reducer_removeSession state id :
  sessions (reducer state (removeSession (Some id))) !! id = None.
Proof. rewrite lookup_reducer. cbn. by rewrite decide_True. Qed.

Lemma reducer_setTimeout state id t :
  sessions (reducer state (setTimeout (Some id) t)) !! id =
  Some (mkSession (repos (session_or_empty state id)) (Some t)).
Proof. rewrite lookup_reducer. cbn. by rewrite decide_True. Qed.

Lemma reducer_keeps_timer state a id :
  action_session a = Some id → touches_timer a = false →
  timeout <$> sessions (reducer state a) !! id =
  Some (timeout (session_or_empty state id)).
Proof.
  intros Ha Ht. rewrite lookup_reducer, Ha, decide_True by done.
  by destruct a.
Qed.

(** The reducer of the specification is a [Reducer]. *)
#[export] Instance machine_reducer : Reducer := {|
  reduce := reducer;
  reduce_ignored := reducer_ignored;
  reduce_frame := reducer_frame;
  reduce_removeSession := reducer_removeSession;
  reduce_setTimeout := reducer_setTimeout;
  reduce_keeps_timer := reducer_keeps_timer;
|}.

Lemma status_of_session state id url :
  status_of state id url = status <$> repos (session_or_empty state id) !! url.
Proof. unfold status_of, session_or_empty. by destruct (sessions state !! id). Qed.

Lemma reduce_repos_trans repos a url :
  status_trans (status <$> repos !! url) (status <$> reduce_repos repos a !! url).
Proof.
  destruct a as [id u|id value|id|id t]; cbn [reduce_repos]; try constructor.
  - destruct (decide (u = url)) as [->|]; simplify_map_eq; [|constructor].
    unfold start_entry. destruct (repos !! url) as [e|] eqn:He; cbn; [|constructor].
    case_decide as Hd; [rewrite Hd|]; constructor.
  - destruct (repos !! Handler.url value) as [e|] eqn:He; [|constructor].
    destruct (decide (Handler.url value = url)) as [<-|]; simplify_map_eq; [|constructor].
    unfold update_entry. destruct e as [st sl fl]. cbn.
    destruct (new_status value), st; constructor.
Qed.

(** Whatever the action, every status moves along the machine. *)
Lemma reducer_status_trans state a id url :
  status_trans (status_of state id url) (status_of (reducer state a) id url).
Proof.
  unfold status_of at 2. rewrite lookup_reducer.
  destruct (action_session a) as [id'|] eqn:Ha; [|constructor].
  case_decide; [subst|constructor].
  rewrite status_of_session. destruct a; cbn; try constructor.
  - apply (reduce_repos_trans _ (Actions.startClone session_id url0)).
  - apply (reduce_repos_trans _ (Actions.setRepoStatus session_id value)).
Qed.

(** ** The entry of a URL after an action *)

Lemma status_of_entry state id url : status_of state id url = status <$> entry_of state id url.
Proof. unfold status_of, entry_of. by destruct (sessions state !! id). Qed.

Lemma entry_of_session state id url :
  entry_of state id url = repos (session_or_empty state id) !! url.
Proof. unfold entry_of, session_or_empty. by destruct (sessions state !! id). Qed.

Lemma entry_of_reducer state a id url :
  action_session a = Some id → (∀ i, a ≠ removeSession i) →
  entry_of (reducer state a) id url =
  reduce_repos (repos (session_or_empty state id)) a !! url.
Proof.
  intros Ha Hrm. unfold entry_of at 1. rewrite lookup_reducer, Ha, decide_True by done.
  destruct a as [i u|i v|i|i t]; [done..|by destruct (Hrm i)|done].
Qed.

Lemma entry_of_startClone state id url :
  entry_of (reducer state (Actions.startClone (Some id) url)) id url =
  Some (start_entry (entry_of state id url)).
Proof.
  rewrite entry_of_reducer, entry_of_session by done. cbn. by rewrite lookup_insert_eq.
Qed.

Lemma entry_of_setRepoStatus state id value :
  entry_of (reducer state (Actions.setRepoStatus (Some id) value)) id (url value) =
  (λ e, update_entry e value) <$> entry_of state id (url value).
Proof.
  rewrite entry_of_reducer, entry_of_session by done. cbn.
  destruct (repos _ !! url value) as [e|] eqn:He; [|by rewrite He].
  by rewrite lookup_insert_eq.
Qed.

Lemma entry_of_setTimeout state id' timeout id url :
  entry_of (reducer state (setTimeout id' timeout)) id url = entry_of state id url.
Proof.
  destruct (decide (id' = Some id)) as [->|Hne].
  - by rewrite entry_of_reducer, entry_of_session.
  - unfold entry_of. by rewrite reducer_frame.
Qed.

End Machine.
