(* ===== verification/Requests.v ===== *)
(** * The requests of the change handler along the application's computations

    Module [Requests] follows what the change handler has on record
    ([issued], [outstanding]) through the computations of [App.v].  A
    request to the application, a timer that fires and a deferred report
    only add requests: what was issued stays issued, and what is
    outstanding stays outstanding under the same number ([issuing]).  The
    answer to an outstanding request removes that request and runs its
    callback; every callback of [src/src/handle_changes.js] makes library
    calls and then reports at most one status, so the world after an
    answer is given in closed form: the requests of the callback on
    record, and the dispatch of its report if it makes one
    ([answer_status], [answer_quiet]).

    [Server.v] and [System.v] build their theorems about sequences of
    events on these lemmas. *)

From stdpp Require Import gmap strings list.
From S2P Require Import Prelude HandleChanges Actions App.

Module Requests.

Import Handler App.

(** ** Reference definitions *)

(** The requests that carry a callback among some requests. *)
Definition pending_of (rs : list request) : list request :=
  filter (λ r, is_Some (callback_of r)) rs.

(** The reactor with the requests [rs] on record, in order. *)
Definition recorded (rs : list request) (h : Reactor) : Reactor :=
  foldl (λ h r, record_request r h) h rs.

(** From [w] to [w'] the handler has issued the requests [l] and no
    callback has run. *)
Definition issues (l : list request) (w w' : World) : Prop :=
  issued (reactor w') = issued (reactor w) ++ l ∧
  outstanding (reactor w') = outstanding (reactor w) ++ pending_of l.

(** A computation in which the handler only issues requests. *)
Definition issuing {A} (m : M A) : Prop := ∀ w, ∃ l, issues l w (exec_ m w).

(** The world in which the [k]-th outstanding request has been answered
    and the requests [rs] of its callback are on record. *)
Definition answered (k : nat) (rs : list request) (w : World) : World :=
  with_reactor (recorded rs (taken k (reactor w))) w.

(** The clone of the URL [u] of the session [i] is under way: the handler
    has seen the state, in which the entry is [e]; the POST request [n]
    for it waits; and the request [q] of the handler is outstanding. *)
Definition under_way (i u : string) (n : nat) (e : RepoEntry) (q : request)
    (w : World) : Prop :=
  synced w ∧ entry_of (state w) i u = Some e ∧ mkWaiting n i u ∈ waiting w ∧
  q ∈ outstanding (reactor w).

(** * Lemmas *)

(** ** The listener on an entry *)

Lemma listener_entry state i u :
  listener state i u =
  entry_of state i u ≫= λ repo,
    match status repo with
    | done => (λ files, send_files (file_urls files)) <$> files repo
    | failed => Some (send_error "clone failed")
    | _ => None
    end.
Proof. unfold listener, entry_of. by destruct (sessions state !! i). Qed.

Lemma listener_waits state i u e :
  entry_of state i u = Some e → status e ≠ done → status e ≠ failed →
  listener state i u = None.
Proof. rewrite listener_entry. intros -> ??. cbn. by destruct (status e). Qed.

Lemma listener_done state i u e fs :
  entry_of state i u = Some e → status e = done → files e = Some fs →
  listener state i u = Some (send_files (file_urls fs)).
Proof. rewrite listener_entry. intros -> Hst Hfs. cbn. by rewrite Hst, Hfs. Qed.

Lemma notify_waits state ws x :
  x ∈ ws → listener state (waiting_id x) (waiting_url x) = None → x ∈ (notify state ws).2.
Proof. intros Hx Hl. unfold notify. cbn. by apply list_elem_of_filter. Qed.

Lemma notify_answers state ws x r :
  x ∈ ws → listener state (waiting_id x) (waiting_url x) = Some r →
  (request_no x, r) ∈ (notify state ws).1 ∧ x ∉ (notify state ws).2.
Proof.
  intros Hx Hl. unfold notify. cbn. split.
  - apply list_elem_of_omap. exists x. by rewrite Hl.
  - rewrite list_elem_of_filter, Hl. by intros [[=] _].
Qed.

(** ** Book-keeping *)

Lemma pending_of_app rs1 rs2 : pending_of (rs1 ++ rs2) = pending_of rs1 ++ pending_of rs2.
Proof. apply filter_app. Qed.

Lemma elem_of_pending_of r rs : r ∈ pending_of rs ↔ is_Some (callback_of r) ∧ r ∈ rs.
Proof. unfold pending_of. by rewrite list_elem_of_filter. Qed.

Lemma record_request_outstanding r h :
  outstanding (record_request r h) = outstanding h ++ pending_of [r].
Proof.
  unfold pending_of. rewrite filter_cons, filter_nil. cbn.
  destruct (callback_of r); [by rewrite decide_True by eauto|].
  rewrite decide_False by (by intros [? ?]). by rewrite app_nil_r.
Qed.

Lemma recorded_snoc rs r h : recorded (rs ++ [r]) h = record_request r (recorded rs h).
Proof. unfold recorded. by rewrite foldl_app. Qed.

Lemma recorded_issued rs h : issued (recorded rs h) = issued h ++ rs.
Proof.
  induction rs as [|r rs IH] using rev_ind; [by rewrite app_nil_r|].
  rewrite recorded_snoc. cbn. by rewrite IH, (assoc app).
Qed.

Lemma recorded_outstanding rs h :
  outstanding (recorded rs h) = outstanding h ++ pending_of rs.
Proof.
  induction rs as [|r rs IH] using rev_ind; [by rewrite app_nil_r|].
  by rewrite recorded_snoc, record_request_outstanding, IH, pending_of_app, (assoc app).
Qed.

Lemma recorded_prev_state rs h : prev_state (recorded rs h) = prev_state h.
Proof. induction rs as [|r rs IH] using rev_ind; [done|]. by rewrite recorded_snoc. Qed.

Lemma recorded_deferred rs h : deferred (recorded rs h) = deferred h.
Proof. induction rs as [|r rs IH] using rev_ind; [done|]. by rewrite recorded_snoc. Qed.

Lemma foldl_register_outstanding h rs :
  outstanding (foldl register h rs) = outstanding h ++ pending_of rs.
Proof.
  induction rs as [|r rs IH] using rev_ind; [by rewrite app_nil_r|].
  rewrite foldl_app, pending_of_app, (assoc app), <-IH. cbn [foldl].
  unfold register. rewrite <-record_request_outstanding. by destruct r.
Qed.

Section lemmas.
Context {R : Reducer} {Pf : Platform} {W : Web}.
Implicit Types (w : World) (a : action) (h : Reactor).

Lemma react_outstanding state h :
  outstanding (react state h) =
  outstanding h ++ pending_of (handleChanges state (prev_state h)).1.
Proof. unfold react. cbn. apply foldl_register_outstanding. Qed.

(** ** Computations that only issue requests *)

Lemma issues_app l1 l2 w1 w2 w3 :
  issues l1 w1 w2 → issues l2 w2 w3 → issues (l1 ++ l2) w1 w3.
Proof.
  intros [Hi1 Ho1] [Hi2 Ho2]. split.
  - by rewrite Hi2, Hi1, (assoc app).
  - by rewrite Ho2, Ho1, pending_of_app, (assoc app).
Qed.

Lemma issues_same w w' :
  issued (reactor w') = issued (reactor w) →
  outstanding (reactor w') = outstanding (reactor w) → issues [] w w'.
Proof. intros Hi Ho. split; by rewrite ?Hi, ?Ho, app_nil_r. Qed.

(** What is outstanding stays outstanding, under its number. *)
Lemma issues_lookup l w w' k r :
  issues l w w' → outstanding (reactor w) !! k = Some r →
  outstanding (reactor w') !! k = Some r.
Proof. intros [_ ->] Hk. by apply lookup_app_l_Some. Qed.

(** A request that was issued with a callback is outstanding, behind the
    requests that were. *)
Lemma issues_outstanding l w w' r :
  issues l w w' → r ∈ l → is_Some (callback_of r) →
  ∃ k, length (outstanding (reactor w)) ≤ k ∧ outstanding (reactor w') !! k = Some r.
Proof.
  intros [_ Ho] Hr Hk.
  assert (r ∈ pending_of l) as [j Hj]%list_elem_of_lookup by by apply elem_of_pending_of.
  exists (length (outstanding (reactor w)) + j). split; [lia|].
  by rewrite Ho, lookup_app_r, Nat.add_comm, Nat.add_sub by lia.
Qed.

Lemma issues_dispatch a w :
  issues (handleChanges (reduce (state w) a) (prev_state (reactor w))).1 w
    (exec_ (dispatch a) w).
Proof. split; rewrite dispatch_reactor; [apply react_issued|apply react_outstanding]. Qed.

Lemma issuing_bind {A B} (m : M A) (f : A → M B) :
  issuing m → (∀ x, issuing (f x)) → issuing (m ≫= f).
Proof.
  intros Hm Hf w. destruct (Hm w) as [l1 H1].
  destruct (Hf (result m w) (exec_ m w)) as [l2 H2].
  exists (l1 ++ l2). rewrite exec_bind. by eapply issues_app.
Qed.

Lemma issuing_silent {A} (m : M A) :
  (∀ w, reactor (exec_ m w) = reactor w) → issuing m.
Proof. intros Hm w. exists []. apply issues_same; by rewrite Hm. Qed.

Lemma issuing_ret {A} (x : A) : issuing (mret x).
Proof. by apply issuing_silent. Qed.

Lemma issuing_getState : issuing getState.
Proof. by apply issuing_silent. Qed.

Lemma issuing_send n r : issuing (send n r).
Proof. by apply issuing_silent. Qed.

Lemma issuing_subscribe n i u : issuing (subscribe n i u).
Proof. by apply issuing_silent. Qed.

Lemma issuing_clearTimeout timeout : issuing (clearTimeout timeout).
Proof. by apply issuing_silent. Qed.

Lemma issuing_setTimeout_ id : issuing (setTimeout_ id).
Proof. by apply issuing_silent. Qed.

Lemma issuing_expire handle : issuing (expire handle).
Proof. by apply issuing_silent. Qed.

Lemma issuing_getReactor : issuing getReactor.
Proof. by apply issuing_silent. Qed.

Lemma issuing_dispatch a : issuing (dispatch a).
Proof. intros w. eexists. apply issues_dispatch. Qed.

Hint Resolve issuing_bind issuing_ret issuing_getState issuing_send issuing_subscribe
  issuing_clearTimeout issuing_setTimeout_ issuing_expire issuing_getReactor
  issuing_dispatch : app.

Lemma issuing_setRemovalTimeout id : issuing (setRemovalTimeout id).
Proof.
  unfold setRemovalTimeout. apply issuing_bind; [eauto with app|intros state].
  apply issuing_bind; [case_match|]; eauto with app.
Qed.

Lemma issuing_fire handle : issuing (fire handle).
Proof. unfold fire. apply issuing_bind; [|intros; case_match]; eauto with app. Qed.

Lemma issuing_flush : issuing flush.
Proof.
  unfold flush. apply issuing_bind; [eauto with app|intros h].
  repeat case_match; [eauto with app|].
  apply issuing_bind; [|eauto with app]. intros w. exists []. by apply issues_same.
Qed.

Hint Resolve issuing_setRemovalTimeout issuing_fire issuing_flush : app.

Lemma issuing_middleware now generated cookie : issuing (middleware now generated cookie).
Proof.
  unfold middleware, touch, ensure_id. apply issuing_bind; [eauto with app|intros c].
  case_match; eauto with app.
Qed.

Lemma issuing_post n cookie url : issuing (post n cookie url).
Proof. unfold post. repeat case_match; eauto with app. Qed.

Lemma issuing_files_route config n cookie : issuing (files_route config n cookie).
Proof.
  unfold files_route. apply issuing_bind; [|intros; case_match]; eauto with app.
Qed.

Hint Resolve issuing_middleware issuing_post issuing_files_route : app.

Lemma issuing_handle_post n now generated cookie url :
  issuing (handle_post n now generated cookie url).
Proof. unfold handle_post. eauto with app. Qed.

Lemma issuing_handle_files config n now generated cookie :
  issuing (handle_files config n now generated cookie).
Proof. unfold handle_files. eauto with app. Qed.

(** ** The requests of a callback *)

Lemma run_eta {A} (m : M A) w : (result m w, exec_ m w, answers m w) = m w.
Proof. unfold result, exec_, answers. by destruct (m w) as [[? ?] ?]. Qed.

Lemma for_each_nil {A} (f : A → M unit) w : for_each f [] w = (tt, w, []).
Proof. done. Qed.

Lemma for_each_cons {A} (f : A → M unit) x l w :
  for_each f (x :: l) w =
  (tt, exec_ (for_each f l) (exec_ (f x) w),
   answers (f x) w ++ answers (for_each f l) (exec_ (f x) w)).
Proof.
  change (for_each f (x :: l)) with (f x ≫= λ _, for_each f l).
  rewrite run_bind. by destruct (result (for_each f l) (exec_ (f x) w)).
Qed.

Lemma perform_quiet r w :
  dispatched [r] = [] → perform r w = (tt, with_reactor (record_request r (reactor w)) w, []).
Proof. by destruct r. Qed.

Lemma perform_status i value w :
  perform (setRepoStatus i value) w =
  dispatch (Actions.setRepoStatus (Some i) value)
    (with_reactor (record_request (setRepoStatus i value) (reactor w)) w).
Proof.
  unfold perform. rewrite run_bind. unfold result, exec_, answers.
  cbn [modifyReactor fst snd app]. by destruct (dispatch _ _) as [[[] ?] ?].
Qed.

Lemma dispatched_cons r rs : dispatched (r :: rs) = dispatched [r] ++ dispatched rs.
Proof. unfold dispatched. cbn. by destruct r. Qed.

(** Requests that report no status are put on record, and that is all. *)
Lemma for_each_perform_quiet rs w :
  dispatched rs = [] →
  for_each perform rs w = (tt, with_reactor (recorded rs (reactor w)) w, []).
Proof.
  revert w. induction rs as [|r rs IH]; intros w Hrs; [by destruct w|].
  rewrite dispatched_cons in Hrs. apply app_eq_nil in Hrs as [Hr Hrs].
  rewrite for_each_cons. unfold exec_, answers.
  by rewrite (perform_quiet r w Hr), (IH _ Hrs).
Qed.

(** Requests that end in the report of a status are put on record, and the
    status is dispatched. *)
Lemma for_each_perform_status rs i value w :
  dispatched rs = [] →
  for_each perform (rs ++ [setRepoStatus i value]) w =
  dispatch (Actions.setRepoStatus (Some i) value)
    (with_reactor (recorded (rs ++ [setRepoStatus i value]) (reactor w)) w).
Proof.
  revert w. induction rs as [|r rs IH]; intros w Hrs.
  - cbn [app]. rewrite for_each_cons. unfold exec_, answers. rewrite for_each_nil.
    cbn [fst snd]. rewrite perform_status, app_nil_r.
    by destruct (dispatch _ _) as [[[] ?] ?].
  - rewrite dispatched_cons in Hrs. apply app_eq_nil in Hrs as [Hr Hrs].
    rewrite <-app_comm_cons, for_each_cons. unfold exec_, answers.
    rewrite (perform_quiet r w Hr). cbn [fst snd app]. rewrite (IH _ Hrs).
    by destruct (dispatch _ _) as [[[] ?] ?].
Qed.

(** The answer to an outstanding request runs the callback on the world
    without that request. *)
Lemma answer_run w k req callback r :
  outstanding (reactor w) !! k = Some req → callback_of req = Some callback →
  fits callback r = true →
  answer k r w = for_each perform (resume callback r) (with_reactor (taken k (reactor w)) w).
Proof.
  intros Hk Hreq Hfits. unfold answer. rewrite run_bind.
  cbn [result exec_ answers getReactor fst snd app].
  rewrite Hk. cbn [mbind option_bind]. rewrite Hreq, Hfits, run_eta, run_bind.
  cbn [result exec_ answers modifyReactor fst snd app]. apply run_eta.
Qed.

(** A callback that reports no status. *)
Lemma answer_quiet w k req callback r :
  outstanding (reactor w) !! k = Some req → callback_of req = Some callback →
  fits callback r = true → dispatched (resume callback r) = [] →
  answer k r w = (tt, answered k (resume callback r) w, []).
Proof.
  intros Hk Hreq Hfits Hrs. erewrite answer_run by done.
  by rewrite for_each_perform_quiet.
Qed.

Lemma answer_quiet_exec w k req callback r :
  outstanding (reactor w) !! k = Some req → callback_of req = Some callback →
  fits callback r = true → dispatched (resume callback r) = [] →
  exec_ (answer k r) w = answered k (resume callback r) w.
Proof. intros. unfold exec_. by erewrite answer_quiet. Qed.

(** A callback that ends in the report of a status. *)
Lemma answer_status w k req callback r rs i value :
  outstanding (reactor w) !! k = Some req → callback_of req = Some callback →
  fits callback r = true →
  resume callback r = rs ++ [setRepoStatus i value] → dispatched rs = [] →
  answer k r w =
  dispatch (Actions.setRepoStatus (Some i) value) (answered k (resume callback r) w).
Proof.
  intros Hk Hreq Hfits Hrs Hquiet. erewrite answer_run by done.
  by rewrite Hrs, for_each_perform_status.
Qed.

(** What is on record after an answer. *)
Lemma answered_issued k rs w :
  issued (reactor (answered k rs w)) = issued (reactor w) ++ rs.
Proof. unfold answered. cbn. by rewrite recorded_issued. Qed.

Lemma answered_outstanding k rs w :
  outstanding (reactor (answered k rs w)) =
  delete k (outstanding (reactor w)) ++ pending_of rs.
Proof. unfold answered. cbn. by rewrite recorded_outstanding. Qed.

Lemma answered_synced k rs w : synced w → synced (answered k rs w).
Proof. unfold synced, answered. cbn. by rewrite recorded_prev_state. Qed.

Lemma issues_answered k rs w :
  issues rs (with_reactor (taken k (reactor w)) w) (answered k rs w).
Proof. split; [apply recorded_issued|apply recorded_outstanding]. Qed.

Lemma issues_taken_issued l k w w' :
  issues l (with_reactor (taken k (reactor w)) w) w' →
  issued (reactor w') = issued (reactor w) ++ l.
Proof. by intros [-> _]. Qed.

(** After an answer, an outstanding request behind the answered one has
    moved up by one. *)
Lemma issues_taken_lookup l k k' w w' r :
  issues l (with_reactor (taken k (reactor w)) w) w' →
  k < k' → outstanding (reactor w) !! k' = Some r →
  outstanding (reactor w') !! pred k' = Some r.
Proof.
  intros Hl Hlt Hk'. eapply issues_lookup; [done|]. cbn.
  rewrite list_lookup_delete_ge by lia. by replace (S (pred k')) with k' by lia.
Qed.

Lemma answer_status_exec w k req callback r rs i value :
  outstanding (reactor w) !! k = Some req → callback_of req = Some callback →
  fits callback r = true →
  resume callback r = rs ++ [setRepoStatus i value] → dispatched rs = [] →
  exec_ (answer k r) w =
    exec_ (dispatch (Actions.setRepoStatus (Some i) value)) (answered k (resume callback r) w) ∧
  answers (answer k r) w =
    answers (dispatch (Actions.setRepoStatus (Some i) value)) (answered k (resume callback r) w).
Proof. intros. unfold exec_, answers. by erewrite answer_status. Qed.

(** ** A clone under way *)

(** An action that leaves the entry neither [done] nor [failed] keeps the
    request waiting; what was outstanding is outstanding, and if the entry
    changed, so is what the handler asks for it. *)
Lemma dispatch_under_way a w i u n o e q :
  synced w → mkWaiting n i u ∈ waiting w →
  entry_of (state w) i u = o → entry_of (reduce (state w) a) i u = Some e →
  status e ≠ done → status e ≠ failed →
  q ∈ outstanding (reactor w) ∨
    (o ≠ Some e ∧ is_Some (callback_of q) ∧ q ∈ handleRepo i (u, e)) →
  under_way i u n e q (exec_ (dispatch a) w).
Proof.
  intros Hsync Hx Ho He Hdone Hfailed Hq. split_and!; [done|done| |].
  - apply notify_waits; [done|]. by eapply listener_waits.
  - rewrite (proj2 (issues_dispatch a w)), elem_of_app.
    destruct Hq as [Hq|(Hne & Hk & Hq)]; [by left|right].
    apply elem_of_pending_of. split; [done|]. rewrite Hsync.
    eapply entry_handled; [done| |done]. by rewrite Ho.
Qed.

(** An action that leaves the entry [done] with its files answers the
    request. *)
Lemma dispatch_answered a w i u n e fs :
  mkWaiting n i u ∈ waiting w →
  entry_of (reduce (state w) a) i u = Some e → status e = done → files e = Some fs →
  (n, send_files (file_urls fs)) ∈ answers (dispatch a) w ∧
  mkWaiting n i u ∉ waiting (exec_ (dispatch a) w).
Proof.
  intros Hx He Hst Hfs.
  apply (notify_answers (reduce (state w) a) _ (mkWaiting n i u)); [done|].
  by eapply listener_done.
Qed.

Lemma under_way_outstanding i u n e q w :
  under_way i u n e q w → ∃ k, outstanding (reactor w) !! k = Some q.
Proof. intros (_ & _ & _ & Hq). by apply list_elem_of_lookup. Qed.

(** What was outstanding beside the answered request is outstanding. *)
Lemma answered_elem_of k rs w q :
  q ∈ pending_of rs → q ∈ outstanding (reactor (answered k rs w)).
Proof. intros Hq. rewrite answered_outstanding, elem_of_app. by right. Qed.

End lemmas.

#[export] Hint Resolve issuing_bind issuing_ret issuing_getState issuing_send
  issuing_subscribe issuing_clearTimeout issuing_setTimeout_ issuing_expire
  issuing_getReactor issuing_dispatch issuing_setRemovalTimeout issuing_fire
  issuing_flush issuing_middleware issuing_post issuing_files_route
  issuing_handle_post issuing_handle_files : app.

End Requests.
