(* ===== verification/Server.v ===== *)
(** * The server as a machine

    Module [Server] runs the computations of [App.v] as a machine: an
    [event] is a request that arrives (with the time, the id [shortid]
    would generate and the cookie the client sent), a pending timer that
    fires, the outside answering an outstanding request of the change
    handler, or the store taking up a deferred status report.
    [serve_event] numbers the requests in the order they arrive and keeps
    the log of the answers sent.  Nothing restricts the order of the
    events: a timer may fire at any moment while it is pending, and an
    outstanding request may be answered at any moment with any answer.

    The theorems are about every finite sequence of events from
    [initial_server]: every request is answered at most once and is either
    answered or waiting; the pending timers that remove a session are
    exactly the timers the sessions record; the change handler has seen the
    store's state after every event; a request of a visitor starts again
    every clone of theirs that is still at [start]; the session that a late
    exit of a process creates is never removed. *)

From stdpp Require Import gmap strings list.
From S2P Require Import Prelude HandleChanges Actions Machine App Requests.

Module Server.

Import Handler App Requests.

(** ** The machine *)

(** What happens to the application: a request arrives with the time, the
    id [shortid] would generate and the cookie the client sent; a pending
    timer fires; the outside answers an outstanding request of the change
    handler; the store takes up a deferred status report. *)
Inductive event : Type :=
| ev_post (now : Z) (generated : string) (cookie : Cookie) (url : option string)
| ev_files (now : Z) (generated : string) (cookie : Cookie)
| ev_fire (handle : nat)
| ev_answer (k : nat) (r : response)
| ev_flush.

(** The world with the requests numbered in the order they arrive and the
    answers sent so far. *)
Record Server : Type := mkServer {
  world : World;
  next_request : nat;
  log : list (nat * reply);
}.

(** Whether the event is a request. *)
Definition is_request (e : event) : bool :=
  match e with
  | ev_post _ _ _ _ | ev_files _ _ _ => true
  | ev_fire _ | ev_answer _ _ | ev_flush => false
  end.

(** The session id in the cookie of a request. *)
Definition visitor (e : event) : option string :=
  match e with
  | ev_post _ _ cookie _ | ev_files _ _ cookie => id cookie
  | ev_fire _ | ev_answer _ _ | ev_flush => None
  end.

(** The session a request is served under: that of its cookie, or the
    one [shortid] names. *)
Definition session_of (e : event) : option string :=
  match e with
  | ev_post _ generated cookie _ | ev_files _ generated cookie =>
      Some (default generated (id cookie))
  | ev_fire _ | ev_answer _ _ | ev_flush => None
  end.

Section operations.
Context {R : Reducer} {Pf : Platform} {W : Web}.

(** The git process the callback of [startClone] starts for a URL of a
    session, in the folder [toFolder i (hash u)]: [fetch] if [fs.exists]
    answered that the folder exists, [clone] otherwise. *)
Definition process (i u : string) (exists_ : bool) : request :=
  exec (if exists_ then fetch i u (hash u) else clone i u (hash u)) (on_exit i u).

(** What the event runs, for a request with the number [n]. *)
Definition handler (config : Config) (n : nat) (e : event) : M unit :=
  match e with
  | ev_post now generated cookie url => handle_post n now generated cookie url;; mret tt
  | ev_files now generated cookie => handle_files config n now generated cookie;; mret tt
  | ev_fire handle => fire handle
  | ev_answer k r => answer k r
  | ev_flush => flush
  end.

Definition serve_event (config : Config) (s : Server) (e : event) : Server :=
  mkServer (exec_ (handler config (next_request s) e) (world s))
    (if is_request e then S (next_request s) else next_request s)
    (log s ++ answers (handler config (next_request s) e) (world s)).

End operations.

(** The server before the first request. *)
Definition initial_server : Server :=
  mkServer initial_world 0 [].

(** ** Reference definitions *)

(** The requests answered and the requests waiting. *)
Definition numbers (s : Server) : list nat :=
  (log s).*1 ++ (request_no <$> waiting (world s)).

(** ** A run of the server *)

(** The server over the reducer of the specification. *)
Definition demo_step : Server → event → Server :=
  serve_event (R:=Machine.machine_reducer) (Pf:=demo_platform) (W:=demo_web) demo_config.

(** A visitor posts a URL; the folder does not exist, so the clone starts;
    the session expires; the clone ends. *)
Definition demo_events : list event :=
  [ev_post 1000 "s1" (mkCookie None None) (Some demo_url);
   ev_answer 1 (exists_is false);
   ev_fire 1;
   ev_answer 2 (exited (Some 0%Z))].

Definition demo_server : Server := run demo_step initial_server demo_events.

(** The same run up to the first request. *)
Definition demo_posted : Server := run demo_step initial_server (take 1 demo_events).

(** The same run up to the removal of the session. *)
Definition demo_expired : Server := run demo_step initial_server (take 3 demo_events).

(** * Lemmas *)

Section lemmas.
Context {R : Reducer} {Pf : Platform} {W : Web}.
Implicit Types (w : World) (a : action) (s : Server).

(** Every event conserves the waiting requests, and a request adds its
    number to them or to the answers. *)
Lemma emits_handler config n e :
  emits (if is_request e then [n] else []) (handler config n e).
Proof.
  destruct e; cbn [is_request handler]; unfold handle_post, handle_files, middleware;
    eauto 10 with app.
Qed.

Lemma serve_event_numbers config s e :
  numbers (serve_event config s e) ≡ₚ
  numbers s ++ (if is_request e then [next_request s] else []).
Proof.
  unfold numbers, serve_event. cbn [log world].
  rewrite fmap_app, <-(assoc app), (emits_handler config _ e (world s)).
  by rewrite (assoc app).
Qed.

Lemma numbers_reachable config s :
  reachable (serve_event config) initial_server s → numbers s ≡ₚ seq 0 (next_request s).
Proof.
  revert s. apply reachable_ind_inv; [done|]. intros s e IH.
  rewrite serve_event_numbers, IH. unfold serve_event. cbn [next_request].
  destruct (is_request e); [by rewrite seq_S|by rewrite app_nil_r].
Qed.

(** What the operations that dispatch preserve and the book-keeping of
    the handler does not disturb, every event preserves. *)
Lemma handler_preserves (Q : World → Prop) config n e :
  (∀ id, preserves Q (setRemovalTimeout id)) →
  (∀ handle, preserves Q (fire handle)) →
  (∀ i u, preserves Q (dispatch (Actions.startClone (Some i) u))) →
  (∀ i value, value_ok value →
     preserves Q (dispatch (Actions.setRepoStatus (Some i) value))) →
  (∀ f, bookkeeping f → preserves Q (modifyReactor f)) →
  (∀ n i u, preserves Q (subscribe n i u)) →
  preserves Q flush →
  preserves Q (handler config n e).
Proof.
  intros Htimer Hfire Hstart Hstatus Hbook Hsub Hflush.
  assert (∀ now g c, preserves Q (middleware now g c)) as Hmw
    by (intros; by apply preserves_middleware).
  destruct e as [now g c url|now g c|handle|k r|]; cbn [handler]; [| |apply Hfire| |apply Hflush].
  - apply preserves_bind; [|eauto with app].
    unfold handle_post, post. apply preserves_bind; [done|intros c'].
    apply preserves_bind; [|eauto with app]. repeat case_match; eauto with app.
  - apply preserves_bind; [|eauto with app].
    unfold handle_files, files_route. apply preserves_bind; [done|intros c'].
    apply preserves_bind; [|eauto with app].
    apply preserves_bind; [eauto with app|]. intros; case_match; eauto with app.
  - unfold answer. apply preserves_bind; [eauto with app|intros h].
    repeat case_match; [|eauto with app..]. apply preserves_bind; [by apply Hbook|intros _].
    apply preserves_for_each_Forall. eapply Forall_impl; [apply resume_ok|].
    intros x Hx. unfold perform.
    apply preserves_bind; [apply Hbook, bookkeeping_record|intros _].
    destruct x; eauto with app.
Qed.

Lemma timers_ok_handler config n e : preserves timers_ok (handler config n e).
Proof.
  apply handler_preserves; eauto with app; try by intros; intros w.
  all: intros; by apply timers_ok_dispatch.
Qed.

Lemma synced_handler config n e : preserves synced (handler config n e).
Proof.
  apply handler_preserves;
    auto using synced_setRemovalTimeout, synced_fire, synced_dispatch,
      synced_modifyReactor, synced_flush.
  by intros n' i u w.
Qed.

Lemma synced_reachable config s :
  reachable (serve_event config) initial_server s → synced (world s).
Proof.
  revert s. apply reachable_ind_inv; [done|]. intros s e Hs. by apply synced_handler.
Qed.

Lemma timers_ok_reachable config s :
  reachable (serve_event config) initial_server s → timers_ok (world s).
Proof.
  revert s. apply reachable_ind_inv; [apply initial_timers_ok|].
  intros s e Hs. by apply timers_ok_handler.
Qed.

(** What the status reports, the timers and the handler's book-keeping
    preserve, every event that is not a request preserves. *)
Lemma background_preserves (Q : World → Prop) config n e :
  (∀ j value, preserves Q (dispatch (Actions.setRepoStatus (Some j) value))) →
  (∀ handle, preserves Q (fire handle)) →
  (∀ f, preserves Q (modifyReactor f)) →
  is_request e = false → preserves Q (handler config n e).
Proof.
  intros Hstatus Hfire Hmod. destruct e as [| | |k r|]; [done..| | |]; intros _; cbn [handler].
  - apply Hfire.
  - unfold answer. apply preserves_bind; [eauto with app|intros h].
    repeat case_match; [|eauto with app..]. apply preserves_bind; [apply Hmod|intros _].
    apply preserves_for_each. intros x. unfold perform.
    apply preserves_bind; [apply Hmod|intros _]. case_match; eauto with app.
  - unfold flush. apply preserves_bind; [eauto with app|intros h].
    repeat case_match; eauto with app.
Qed.

(** What the events that are no requests preserve holds as long as no
    request arrives. *)
Lemma background_run config (Q : World → Prop) es s :
  (∀ n e, is_request e = false → preserves Q (handler config n e)) →
  Forall (λ e, is_request e = false) es → Q (world s) →
  Q (world (run (serve_event config) s es)).
Proof.
  intros HQ Hes. revert s. induction Hes as [|e es He _ IH]; [done|].
  intros s Hs. apply IH. by apply HQ.
Qed.

Lemma orphan_run config i es s :
  Forall (λ e, is_request e = false) es → orphan i (world s) →
  orphan i (world (run (serve_event config) s es)).
Proof.
  apply background_run. intros n e.
  apply background_preserves; [apply orphan_status|apply orphan_fire|by intros f w].
Qed.

(** ** Requests and answers on the handler's record *)

(** A request of a visitor with a session resets the timer of the session
    and goes on issuing. *)
Lemma request_exec config n e i w :
  visitor e = Some i →
  ∃ m : M unit, issuing m ∧
    exec_ (handler config n e) w = exec_ m (exec_ (setRemovalTimeout (Some i)) w).
Proof.
  destruct e as [now g c url|now g c| | |]; cbn [visitor handler]; intros Hi; try done.
  - exists (post n (result (middleware now g c) w) url). split; [eauto with app|].
    unfold handle_post. by rewrite !exec_bind, !exec_ret, (middleware_exec_known _ _ _ i).
  - exists (mret tt). split; [eauto with app|].
    by rewrite exec_bind, !exec_ret, handle_files_exec, (middleware_exec_known _ _ _ i).
Qed.

Lemma issuing_request config n e : is_request e = true → issuing (handler config n e).
Proof. destruct e; cbn [is_request handler]; intros; try done; eauto with app. Qed.

(** The session of a request exists when the request has been served. *)
Lemma request_session config n e g w :
  session_of e = Some g → is_Some (sessions (state (exec_ (handler config n e) w)) !! g).
Proof.
  destruct e as [now gen c url|now gen c| | |]; cbn [session_of handler]; intros [= <-].
  - unfold handle_post, post.
    rewrite !exec_bind, !exec_ret, middleware_result. cbn [id].
    pose proof (middleware_session now gen c w) as Hs.
    repeat case_match; try done. rewrite exec_bind, dispatch_state.
    by apply reduce_keeps_session.
  - rewrite exec_bind, exec_ret, handle_files_exec. apply middleware_session.
Qed.

Lemma issues_setRemovalTimeout id w :
  issues (handleChanges (reduce (state w) (setTimeout id (next_timer (timers w))))
            (prev_state (reactor w))).1
    w (exec_ (setRemovalTimeout id) w).
Proof.
  split; rewrite setRemovalTimeout_reactor; [apply react_issued|apply react_outstanding].
Qed.

(** A request of a visitor makes the handler start every repository of
    theirs that is at [start]. *)
Lemma request_restarts config s e i session u entry :
  reachable (serve_event config) initial_server s →
  visitor e = Some i →
  sessions (state (world s)) !! i = Some session →
  repos session !! u = Some entry → status entry = start →
  ∃ l, issues l (world s) (world (serve_event config s e)) ∧
    fs_exists (toFolder i (hash u)) (on_exists i u (hash u)) ∈ l.
Proof.
  intros Hs Hi Hses He Hst. cbn [serve_event world].
  destruct (request_exec config (next_request s) e i (world s) Hi) as (m & Hm & ->).
  destruct (Hm (exec_ (setRemovalTimeout (Some i)) (world s))) as [l2 Hl2].
  eexists. split; [eapply issues_app; [apply issues_setRemovalTimeout|done]|].
  apply elem_of_app. left.
  eapply setRemovalTimeout_restarts; eauto using synced_reachable, timers_ok_reachable.
Qed.

(** The answer of [fs.exists] starts the process and reports [cloning]. *)
Lemma answer_exists w k folder i u sl b :
  outstanding (reactor w) !! k = Some (fs_exists folder (on_exists i u sl)) →
  answer k (exists_is b) w =
  dispatch (Actions.setRepoStatus (Some i) (mkUpdate u cloning (Some sl) None))
    (answered k (startClone_callback i u sl b) w).
Proof. intros Hk. by eapply (answer_status w k _ (on_exists i u sl) (exists_is b) [exec _ (on_exit i u)]). Qed.

Lemma answer_exists_issues w k folder i u sl b :
  outstanding (reactor w) !! k = Some (fs_exists folder (on_exists i u sl)) →
  ∃ l, issues (startClone_callback i u sl b ++ l) (with_reactor (taken k (reactor w)) w)
         (exec_ (answer k (exists_is b)) w).
Proof.
  intros Hk. unfold exec_. erewrite answer_exists by done. eexists.
  eapply issues_app; [apply issues_answered|apply issues_dispatch].
Qed.

(** * Theorems *)

(** C6: In every state the server reaches, the requests that have arrived
    are the requests answered together with the requests waiting, each
    once: no request is answered twice, and none is answered and still
    waiting. *)
Theorem reachable_answered_once config s :
  reachable (serve_event config) initial_server s →
  NoDup (numbers s) ∧ ∀ n, n ∈ numbers s ↔ n < next_request s.
Proof.
  intros Hs%numbers_reachable. split.
  - rewrite Hs. apply NoDup_seq.
  - intros n. rewrite Hs, elem_of_seq. lia.
Qed.

(** C5: In every state the server reaches, the pending timers that remove
    a session are exactly the timers the sessions record, one for each:
    [setRemovalTimeout] leaves no earlier timer of the session behind. *)
Theorem reachable_timers_ok config s :
  reachable (serve_event config) initial_server s → timers_ok (world s).
Proof. apply timers_ok_reachable. Qed.

(** C18: When a git process exits after its session has been removed, the
    status it reports creates the session again, without a timer: no
    timer that fires and no later callback removes it, so it stays until
    its visitor comes back. *)
Theorem late_status_session_stays config s i url command k code es :
  timers_ok (world s) → sessions (state (world s)) !! i = None →
  outstanding (reactor (world s)) !! k = Some (exec command (on_exit i url)) →
  Forall (λ e, is_request e = false) es →
  is_Some (sessions (state (world
    (run (serve_event config) s (ev_answer k (exited code) :: es)))) !! i).
Proof.
  intros Hok Hi Hk Hes.
  eapply proj1, (orphan_run config i es (serve_event config s (ev_answer k (exited code))));
    [done|]. by eapply answer_exit_orphan.
Qed.

(** C2: Every request of a visitor starts again every clone of theirs
    that is still at [start], a POST as well as a request to [/files]: the
    middleware resets the timer of the session, which changes the session,
    and the change handler starts every repository at [start] of a session
    that changed.  If the first [fs.exists] has not answered yet, two git
    processes will work in one folder. *)
Theorem request_restarts_clone config s e i session u entry :
  reachable (serve_event config) initial_server s →
  visitor e = Some i →
  sessions (state (world s)) !! i = Some session →
  repos session !! u = Some entry → status entry = start →
  ∃ l,
    issued (reactor (world (serve_event config s e))) = issued (reactor (world s)) ++ l ∧
    fs_exists (toFolder i (hash u)) (on_exists i u (hash u)) ∈ l.
Proof.
  intros Hs Hi Hses He Hst.
  destruct (request_restarts config s e i session u entry) as (l & [Hl _] & Hin); eauto.
Qed.

(** C14: Two processes in one folder.  In a state the server reaches, let a
    repository of a session be at [start] with the [fs.exists] of its
    [startClone] unanswered, and let the visitor send one more request.
    Then a second [fs.exists] for the same folder is outstanding, and when
    both are answered, whatever the answers, each callback starts a git
    process ([fetch] or [clone]) in the folder [toFolder i (hash u)]: the
    second answer finds the status [cloning] and starts its process all
    the same. *)
Theorem second_request_second_process config s e i session u entry k b b' :
  reachable (serve_event config) initial_server s →
  visitor e = Some i →
  sessions (state (world s)) !! i = Some session →
  repos session !! u = Some entry → status entry = start →
  outstanding (reactor (world s)) !! k =
    Some (fs_exists (toFolder i (hash u)) (on_exists i u (hash u))) →
  ∃ k' l1 l2 l3,
    issued (reactor (world (run (serve_event config) s
      [e; ev_answer k (exists_is b); ev_answer k' (exists_is b')]))) =
      issued (reactor (world s)) ++ l1 ++ l2 ++ l3 ∧
    process i u b ∈ l2 ∧ process i u b' ∈ l3.
Proof.
  intros Hs Hi Hses He Hst Hk.
  destruct (request_restarts config s e i session u entry) as (l1 & Hl1 & Hin); [done..|].
  destruct (issues_outstanding _ _ _ _ Hl1 Hin) as (k0 & Hk0 & Hout0); [by eexists|].
  pose proof (lookup_lt_Some _ _ _ Hk) as Hlt.
  pose proof (issues_lookup _ _ _ _ _ Hl1 Hk) as Hout.
  set (s1 := serve_event config s e) in *.
  destruct (answer_exists_issues (world s1) k _ i u (hash u) b Hout) as [l2 Hl2].
  pose proof (issues_taken_lookup _ k k0 _ _ _ Hl2 ltac:(lia) Hout0) as Hout2.
  destruct (answer_exists_issues _ (pred k0) _ i u (hash u) b' Hout2) as [l3 Hl3].
  exists (pred k0), l1, (startClone_callback i u (hash u) b ++ l2),
    (startClone_callback i u (hash u) b' ++ l3).
  split; [|split; apply elem_of_app; left; apply list_elem_of_here].
  cbn [run foldl serve_event world handler].
  change (exec_ (handler config (next_request s) e) (world s)) with (world s1).
  by rewrite (issues_taken_issued _ _ _ _ Hl3), (issues_taken_issued _ _ _ _ Hl2),
    (proj1 Hl1), !(assoc app).
Qed.

(** C15: The sweep removes the folder of a live session.  The sweep tests
    the folders against the session ids it took when it was started; when
    a request creates a session before [glob] has answered, and [glob]
    lists the folder of that session, the folder is removed although the
    session exists. *)
Theorem sweep_removes_live_folder config s e g k pattern options keys paths :
  session_of e = Some g → g ∉ keys →
  outstanding (reactor (world s)) !! k = Some (glob pattern options (on_folders keys)) →
  session_data ++ [g] ∈ paths →
  let s' := run (serve_event config) s [e; ev_answer k (globbed (Some paths))] in
  is_Some (sessions (state (world s')) !! g) ∧
  rimraf (session_data ++ [g]) on_removed ∈ issued (reactor (world s')).
Proof.
  intros Hg Hkeys Hk Hin. cbn zeta. cbn [run foldl serve_event world handler].
  set (w1 := exec_ (handler config (next_request s) e) (world s)).
  assert (is_request e = true) as He by by destruct e.
  destruct (issuing_request config (next_request s) e He (world s)) as [l Hl].
  pose proof (issues_lookup _ _ _ _ _ Hl Hk) as Hk1. fold w1 in Hk1.
  erewrite (answer_quiet_exec w1 k _ (on_folders keys)); [|done|done|done|apply sweep_dispatched].
  split; [by apply request_session|].
  rewrite answered_issued, elem_of_app. right. by apply sweep_orphan.
Qed.

End lemmas.

(** ** The theorems on the run [demo_events] *)

#[local] Existing Instances Machine.machine_reducer demo_platform demo_web.

Lemma reachable_answered_once_witness :
  NoDup (numbers demo_server) ∧ ∀ n, n ∈ numbers demo_server ↔ n < next_request demo_server.
Proof. apply (reachable_answered_once demo_config), reachable_run. Defined.

Lemma reachable_timers_ok_witness : timers_ok (world demo_server).
Proof. apply (reachable_timers_ok demo_config), reachable_run. Defined.

Lemma late_status_session_stays_witness :
  is_Some (sessions (state (world
    (run demo_step demo_expired [ev_answer 2 (exited (Some 0%Z)); ev_fire 0]))) !! "s1").
Proof.
  apply (late_status_session_stays demo_config demo_expired "s1" demo_url
           (clone "s1" demo_url (hash demo_url)));
    [apply (timers_ok_reachable demo_config), reachable_run|done|done|repeat constructor].
Defined.

Lemma request_restarts_clone_witness :
  ∃ l,
    issued (reactor (world
      (demo_step demo_posted (ev_files 1001 "s9" (mkCookie (Some "s1") None))))) =
      issued (reactor (world demo_posted)) ++ l ∧
    fs_exists (toFolder "s1" (hash demo_url)) (on_exists "s1" demo_url (hash demo_url)) ∈ l.
Proof.
  apply (request_restarts_clone demo_config demo_posted
           (ev_files 1001 "s9" (mkCookie (Some "s1") None))
           "s1" (mkSession {[demo_url := mkRepo start None None]} (Some 1)) demo_url
           (mkRepo start None None));
    [apply reachable_run|done|by vm_compute|done|done].
Defined.

(** After the POST of [demo_events] the [fs.exists] of the clone is the
    outstanding request 1; the visitor sends a request to [/files], and
    both calls of [fs.exists] are answered: no folder, then a folder. *)
Lemma second_request_second_process_witness :
  ∃ k' l1 l2 l3,
    issued (reactor (world (run demo_step demo_posted
      [ev_files 1001 "s9" (mkCookie (Some "s1") None);
       ev_answer 1 (exists_is false); ev_answer k' (exists_is true)]))) =
      issued (reactor (world demo_posted)) ++ l1 ++ l2 ++ l3 ∧
    process "s1" demo_url false ∈ l2 ∧ process "s1" demo_url true ∈ l3.
Proof.
  apply (second_request_second_process demo_config demo_posted
           (ev_files 1001 "s9" (mkCookie (Some "s1") None))
           "s1" (mkSession {[demo_url := mkRepo start None None]} (Some 1)) demo_url
           (mkRepo start None None) 1 false true);
    [apply reachable_run|done|by vm_compute|done|done|done].
Defined.

(** After the POST of [demo_events] the sweep that took the session ids
    [{"s1"}] is the outstanding request 0; a second visitor posts a URL,
    and [glob] lists the folders of both sessions. *)
Lemma sweep_removes_live_folder_witness :
  let s' := run demo_step demo_posted
              [ev_post 1002 "s2" (mkCookie None None) (Some demo_url);
               ev_answer 0 (globbed (Some [["session_data"; "s1"]; ["session_data"; "s2"]]))] in
  is_Some (sessions (state (world s')) !! "s2") ∧
  rimraf (session_data ++ ["s2"]) on_removed ∈ issued (reactor (world s')).
Proof.
  apply (sweep_removes_live_folder demo_config demo_posted
           (ev_post 1002 "s2" (mkCookie None None) (Some demo_url)) "s2" 0
           (session_data ++ ["*"]) (mkGlob false false None) {["s1"]});
    [done|by intros [=]%elem_of_singleton|done|by apply list_elem_of_lookup; exists 1].
Defined.

End Server.
