(* ===== verification/System.v ===== *)
(** * The whole system

    Module [System] runs the server of [Server.v] with the reducer of
    [Machine.v]: store, reducer, change handler and application together,
    as the repository means them to run.

    It shows what the parts do together that none shows alone.  Every
    entry that is [cloning] or [clone_done] has its slug in every
    reachable state, so [getFiles] never lacks one and the change handler
    never dispatches from inside a notification.  A POST request whose
    session expires while its clone runs is never answered: the timer
    removes the session, the reports of the clone that arrive afterwards
    find no entry to update, and the listener keeps waiting.  Three runs
    are evaluated: a clone that succeeds and is answered with its files;
    a second request of the visitor before [fs.exists] has answered, which
    starts two git processes in one folder; and a sweep that removes the
    folder of a session created while [glob] was listing. *)

From stdpp Require Import gmap strings list.
From S2P Require Import Prelude HandleChanges Actions Machine App Requests Server.

Module System.

Import Handler App Requests Server.

#[local] Existing Instance Machine.machine_reducer.

(** The server of [App.v] over the reducer of the specification. *)
Definition step {Pf : Platform} {W : Web} (config : Config) : Server → event → Server :=
  serve_event (R:=Machine.machine_reducer) config.

(** An entry whose clone has begun or ended has the slug of its folder,
    and a [done] entry has its files. *)
Definition entry_ok (e : RepoEntry) : Prop :=
  (status e = cloning ∨ status e = clone_done → is_Some (slug e)) ∧
  (status e = done → is_Some (files e)).

Definition entries_ok (state : State) : Prop :=
  ∀ i session url e,
    sessions state !! i = Some session → repos session !! url = Some e → entry_ok e.

Definition action_ok (a : action) : Prop :=
  match a with
  | Actions.setRepoStatus _ value => value_ok value
  | _ => True
  end.

(** Every entry has the slug it needs, and no status report of the
    handler waits to be taken up. *)
Definition node_ok (w : World) : Prop :=
  entries_ok (state w) ∧ deferred (reactor w) = [].

(** A visitor posts a URL. *)
Definition demo_post : event := ev_post 1000 "s1" (mkCookie None None) (Some demo_url).

(** Every request is answered in turn: the folder does not exist, the
    clone succeeds, the folder holds one file. *)
Definition demo_clone : list event :=
  [demo_post; ev_answer 1 (exists_is false); ev_answer 2 (exited (Some 0%Z));
   ev_answer 3 (globbed (Some [["session_data"; "s1"; "da39a3e"; "README"]]))].

(** The request [x] waits for an entry that does not exist. *)
Definition stuck (x : Waiting) (w : World) : Prop :=
  x ∈ waiting w ∧ Machine.status_of (state w) (waiting_id x) (waiting_url x) = None.

(** A server in which a request waits and the timer of its session is
    pending. *)
Definition demo_waiting : Waiting := mkWaiting 0 "s1" demo_url.

Definition demo_server : Server :=
  mkServer
    (mkWorld (mkState {["s1" := mkSession {[demo_url := mkRepo cloning (Some "slug") None]}
                                  (Some 0)]})
       (mkTimers {[0 := Some "s1"]} 1) [demo_waiting]
       (mkReactor (mkState ∅) [exec "git" (on_exit "s1" demo_url)] [] []))
    1 [].

(** * Lemmas *)

Section system.
Context {Pf : Platform} {W : Web}.

Lemma absent_listener state i url :
  Machine.status_of state i url = None → listener state i url = None.
Proof.
  unfold Machine.status_of, listener. destruct (sessions state !! i) as [session|]; [|done].
  cbn. by destruct (repos session !! url).
Qed.

Lemma absent_removed state i url :
  Machine.status_of (Machine.reducer state (removeSession (Some i))) i url = None.
Proof. unfold Machine.status_of. by rewrite Machine.reducer_removeSession. Qed.

(** No action but [startClone] creates an entry. *)
Lemma absent_stays state a i u :
  (∀ id u', a ≠ Actions.startClone id u') →
  Machine.status_of state i u = None →
  Machine.status_of (Machine.reducer state a) i u = None.
Proof.
  intros Ha Hi. pose proof Hi as Hi'. rewrite Machine.status_of_session in Hi'.
  unfold Machine.status_of. rewrite Machine.lookup_reducer.
  destruct (action_session a) as [id|] eqn:Hid; [|exact Hi].
  case_decide; [subst id|exact Hi].
  destruct a as [id u'|id value|id|id t]; cbn; [by destruct (Ha id u')| |done..].
  destruct (repos (session_or_empty state i) !! url value) as [e|] eqn:He; [|done].
  rewrite lookup_insert_ne; [done|]. intros E. by rewrite <-E, He in Hi'.
Qed.

Lemma stuck_dispatch x a :
  (∀ id u, a ≠ Actions.startClone id u) → preserves (stuck x) (dispatch a).
Proof.
  intros Ha w [Hx Hs]. pose proof (absent_stays (state w) a _ _ Ha Hs) as Hs'.
  split; [|done]. unfold exec_, dispatch, notify. cbn.
  apply list_elem_of_filter. split; [by apply absent_listener|done].
Qed.

Lemma stuck_fire x handle : preserves (stuck x) (fire handle).
Proof.
  unfold fire. apply preserves_bind; [by intros w|]. intros [id|]; [|by intros w].
  by apply stuck_dispatch.
Qed.

Lemma stuck_background config n e x :
  is_request e = false → preserves (stuck x) (handler config n e).
Proof.
  apply background_preserves;
    [intros; by apply stuck_dispatch|apply stuck_fire|by intros f w].
Qed.

Lemma fire_stuck x handle w :
  x ∈ waiting w → pending (timers w) !! handle = Some (Some (waiting_id x)) →
  stuck x (exec_ (fire handle) w).
Proof.
  intros Hx Hh. assert (Hs : Machine.status_of (state (exec_ (fire handle) w))
                               (waiting_id x) (waiting_url x) = None).
  { rewrite fire_state, Hh. apply absent_removed. }
  split; [|done]. unfold fire. rewrite exec_bind. cbn [result expire fst]. rewrite Hh.
  rewrite fire_state, Hh in Hs. unfold exec_, dispatch, notify. cbn.
  apply list_elem_of_filter. split; [by apply absent_listener|done].
Qed.

(** ** A failed entry stays failed *)

Lemma failed_listener state i u :
  Machine.status_of state i u = Some failed →
  listener state i u = Some (send_error "clone failed").
Proof.
  unfold Machine.status_of, listener. destruct (sessions state !! i) as [session|]; [|done].
  cbn. destruct (repos session !! u) as [e|]; [|done]. cbn. by intros [= ->].
Qed.

(** No action but [removeSession] changes a failed entry. *)
Lemma failed_stays state a i u :
  (∀ id, a ≠ removeSession id) →
  Machine.status_of state i u = Some failed →
  Machine.status_of (Machine.reducer state a) i u = Some failed.
Proof.
  intros Ha Hi. pose proof Hi as Hi'. rewrite Machine.status_of_session in Hi'.
  unfold Machine.status_of. rewrite Machine.lookup_reducer.
  destruct (action_session a) as [id|] eqn:Hid; [|exact Hi].
  case_decide; [subst id|exact Hi].
  apply fmap_Some in Hi' as (e & He & Hst).
  destruct a as [id u'|id value|id|id t]; cbn; [| |by destruct (Ha id)|by rewrite He, Hst].
  - destruct (decide (u' = u)) as [->|]; simplify_map_eq; [|by rewrite Hst].
    rewrite decide_False by by rewrite <-Hst. by rewrite Hst.
  - destruct (repos (session_or_empty state i) !! url value) as [e'|] eqn:He';
      [|by rewrite He, Hst].
    destruct (decide (url value = u)) as [Hu|]; simplify_map_eq; [|by rewrite Hst].
    unfold Machine.update_entry. destruct e as [st sl fl]. cbn in *. subst st.
    by destruct (new_status value).
Qed.

(** ** The handler reports with a slug, and never from a notification *)

Lemma update_entry_ok e value : entry_ok e → value_ok value → entry_ok (Machine.update_entry e value).
Proof.
  unfold entry_ok, value_ok, Machine.update_entry. intros He Hv.
  destruct e as [st sl fl]. cbn in *.
  destruct (new_status value), st; cbn; naive_solver.
Qed.

Lemma start_entry_ok o : (∀ e, o = Some e → entry_ok e) → entry_ok (Machine.start_entry o).
Proof.
  assert (entry_ok Machine.fresh_entry) as Hfresh by (by split; [intros [[=]|[=]]|]).
  intros Ho. unfold Machine.start_entry. destruct o as [e|]; [|done].
  case_decide; [done|by apply Ho].
Qed.

Lemma reduce_repos_ok repos a :
  action_ok a → map_Forall (λ _, entry_ok) repos →
  map_Forall (λ _, entry_ok) (Machine.reduce_repos repos a).
Proof.
  intros Ha Hrepos. destruct a as [id u|id value|id|id t]; cbn [Machine.reduce_repos]; [| |done..].
  - apply map_Forall_insert_2; [|done]. apply start_entry_ok. intros e He. by eapply Hrepos.
  - destruct (repos !! url value) as [e|] eqn:He; [|done].
    apply map_Forall_insert_2; [|done]. apply update_entry_ok; [by eapply Hrepos|done].
Qed.

Lemma reducer_entries_ok state a :
  action_ok a → entries_ok state → entries_ok (Machine.reducer state a).
Proof.
  intros Ha Hstate i session u e. rewrite Machine.lookup_reducer.
  destruct (action_session a) as [i'|] eqn:Hi; [|by apply Hstate].
  case_decide; [subst i'|by apply Hstate].
  assert (map_Forall (λ _, entry_ok) (repos (session_or_empty state i))) as Hrepos.
  { unfold session_or_empty. destruct (sessions state !! i) as [s0|] eqn:Hs; cbn.
    - intros u' e' He'. by eapply Hstate.
    - by intros u' e' He'%lookup_empty_Some. }
  pose proof (reduce_repos_ok _ a Ha Hrepos) as Hok.
  destruct a; [|  |done|]; intros [= <-]; apply Hok.
Qed.

(** With every slug in place the handler only issues requests that
    carry a callback. *)
Lemma handleChanges_async state prev :
  entries_ok state → Forall (λ r, is_Some (callback_of r)) (handleChanges state prev).1.
Proof.
  intros Hstate. apply Forall_forall. intros r [_ [Hr|Hr]]%elem_of_requests.
  - destruct Hr as (i & session & Hs & _ & (u & e & He & Hr)%elem_of_handleSessionChanges).
    unfold handleRepo in Hr. cbn [fst snd] in Hr.
    destruct (status e) eqn:Hst; try by apply elem_of_nil in Hr.
    + apply list_elem_of_singleton in Hr as ->. by eexists.
    + destruct (proj1 (Hstate i session u e Hs He)) as [sl Hsl]; [by right|].
      rewrite Hsl in Hr. apply list_elem_of_singleton in Hr as ->. by eexists.
  - apply list_elem_of_singleton in Hr as ->. by eexists.
Qed.

Lemma foldl_register_deferred h rs :
  Forall (λ r, is_Some (callback_of r)) rs →
  deferred (foldl register h rs) = deferred h.
Proof.
  intros Hrs. revert h. induction Hrs as [|r rs [k Hr] _ IH]; intros h; cbn [foldl]; [done|].
  rewrite IH. by destruct r.
Qed.

Lemma react_deferred state h :
  entries_ok state → deferred (react state h) = deferred h.
Proof.
  intros Hstate. unfold react. cbn.
  by rewrite foldl_register_deferred by by apply handleChanges_async.
Qed.

Lemma dispatch_node_ok a : action_ok a → preserves node_ok (dispatch a).
Proof.
  intros Ha w [Hstate Hdef].
  pose proof (reducer_entries_ok _ a Ha Hstate) as Hstate'.
  split; [done|]. by rewrite dispatch_reactor, react_deferred.
Qed.

Lemma setRemovalTimeout_node_ok id : preserves node_ok (setRemovalTimeout id).
Proof.
  intros w [Hstate Hdef].
  pose proof (reducer_entries_ok _ (setTimeout id (next_timer (timers w))) I Hstate).
  split; [by rewrite setRemovalTimeout_state|].
  by rewrite setRemovalTimeout_reactor, react_deferred.
Qed.

Lemma fire_node_ok handle : preserves node_ok (fire handle).
Proof.
  unfold fire. apply preserves_bind; [by intros w|intros callback].
  case_match; [by apply dispatch_node_ok|apply preserves_ret].
Qed.

Lemma flush_node_ok : preserves node_ok flush.
Proof.
  intros w [Hstate Hdef]. unfold flush. rewrite exec_bind. cbn [result getReactor fst].
  by rewrite Hdef.
Qed.

Lemma modifyReactor_node_ok f : bookkeeping f → preserves node_ok (modifyReactor f).
Proof. intros Hf w [Hstate Hdef]. split; [done|]. cbn. by rewrite (proj2 (Hf _)). Qed.

Lemma handler_node_ok config n e : preserves node_ok (handler config n e).
Proof.
  apply handler_preserves;
    auto using setRemovalTimeout_node_ok, fire_node_ok, flush_node_ok, modifyReactor_node_ok.
  - intros. by apply dispatch_node_ok.
  - intros. by apply dispatch_node_ok.
  - by intros n' i u w.
Qed.

Lemma node_ok_reachable config s :
  reachable (step config) initial_server s → node_ok (world s).
Proof.
  revert s. apply reachable_ind_inv; [|intros s e Hs; by apply handler_node_ok].
  split; [|done]. intros i session u e Hi. cbn in Hi. by rewrite lookup_empty in Hi.
Qed.

(** ** A clone that meets no obstacle *)

Lemma entry_of_setRemovalTimeout id i u o :
  preserves (λ w, entry_of (state w) i u = o) (setRemovalTimeout id).
Proof.
  intros w Hw. rewrite setRemovalTimeout_state.
  etrans; [apply Machine.entry_of_setTimeout|done].
Qed.

(** A POST of a URL that is new to the session, or [done], starts its
    clone: the entry is at [start], the request waits, and the handler has
    asked whether the folder exists. *)
Lemma post_under_way config s now g cookie u :
  reachable (step config) initial_server s → isGitUrl (Some u) = true →
  let i := default g (id cookie) in
  Machine.status_of (state (world s)) i u = None ∨
    Machine.status_of (state (world s)) i u = Some done →
  under_way i u (next_request s) Machine.fresh_entry
    (fs_exists (toFolder i (hash u)) (on_exists i u (hash u)))
    (world (step config s (ev_post now g cookie (Some u)))).
Proof.
  intros Hs Hu i Hst. unfold step. cbn [serve_event world handler]. unfold handle_post, post.
  rewrite !exec_bind, !exec_ret, middleware_result. cbn [id]. rewrite Hu, exec_bind.
  set (wm := exec_ (middleware now g cookie) (world s)).
  assert (synced wm) as Hsync
    by (apply preserves_middleware; [apply synced_setRemovalTimeout|by eapply synced_reachable]).
  assert (entry_of (state wm) i u = entry_of (state (world s)) i u) as Hwm
    by (by apply (preserves_middleware
                    (λ w : World, entry_of (state w) i u = entry_of (state (world s)) i u));
          [intros; apply entry_of_setRemovalTimeout|]).
  rewrite !Machine.status_of_entry in Hst.
  eapply dispatch_under_way; [done|by apply elem_of_app; right; left|exact Hwm| |done|done|].
  - etrans; [apply Machine.entry_of_startClone|]. cbn [exec_ subscribe fst snd state].
    rewrite Hwm. unfold Machine.start_entry.
    destruct (entry_of _ i u) as [e|]; [|done]. destruct Hst as [[=]|[= ->]]. by rewrite decide_True.
  - right. split_and!; [|by eexists|by left].
    destruct (entry_of _ i u) as [e|]; [|done]. destruct Hst as [[=]|[= Hst]]. by intros [= ->].
Qed.

(** The answer of [fs.exists] sets the entry to [cloning] with its slug
    and starts the process. *)
Lemma exists_under_way w k folder i u sl (b : bool) n e q :
  under_way i u n e q w → status e = start →
  outstanding (reactor w) !! k = Some (fs_exists folder (on_exists i u sl)) →
  under_way i u n (mkRepo cloning (Some sl) (files e))
    (exec (if b then fetch i u sl else clone i u sl) (on_exit i u))
    (exec_ (answer k (exists_is b)) w).
Proof.
  intros (Hsync & He & Hx & _) Hst Hk.
  destruct (answer_status_exec w k _ (on_exists i u sl) (exists_is b)
              [exec (if b then fetch i u sl else clone i u sl) (on_exit i u)] i
              (mkUpdate u cloning (Some sl) None) Hk) as [-> _]; [done..|].
  eapply dispatch_under_way; [by apply answered_synced|done|exact He| |done|done|].
  - etrans; [apply (Machine.entry_of_setRepoStatus _ i (mkUpdate u cloning (Some sl) None))|].
    cbn [url]. change (state (answered _ _ w)) with (state w). rewrite He. cbn.
    unfold Machine.update_entry. cbn. by rewrite Hst.
  - left. apply answered_elem_of. by left.
Qed.

(** The exit of the process with 0 sets the entry to [clone_done], and
    the handler lists the folder. *)
Lemma exit_under_way w k command i u sl n e q :
  under_way i u n e q w → status e = cloning → slug e = Some sl →
  outstanding (reactor w) !! k = Some (exec command (on_exit i u)) →
  under_way i u n (mkRepo clone_done (Some sl) (files e))
    (glob (toFolder i sl ++ ["**"; "*"])
       (mkGlob true true (Some (toFolder i sl ++ [".git"; "**"; "*"]))) (on_listed i u))
    (exec_ (answer k (exited (Some 0%Z))) w).
Proof.
  intros (Hsync & He & Hx & _) Hst Hsl Hk.
  destruct (answer_status_exec w k _ (on_exit i u) (exited (Some 0%Z)) [] i
              (mkUpdate u clone_done None None) Hk) as [-> _]; [done..|].
  eapply dispatch_under_way; [by apply answered_synced|done|exact He| |done|done|].
  - etrans; [apply (Machine.entry_of_setRepoStatus _ i (mkUpdate u clone_done None None))|].
    cbn [url]. change (state (answered _ _ w)) with (state w). rewrite He. cbn.
    unfold Machine.update_entry. cbn. by rewrite Hst, Hsl.
  - right. split_and!; [|by eexists|by left]. intros [= Hne]. by rewrite Hne in Hst.
Qed.

(** The listing of the folder sets the entry to [done] with the files
    relative to the folder of the session, and answers the request. *)
Lemma listed_answered w k pattern options i u paths n e q :
  under_way i u n e q w → status e = clone_done →
  outstanding (reactor w) !! k = Some (glob pattern options (on_listed i u)) →
  let fs := (relative (session_data ++ [i]) <$> paths) in
  let w' := exec_ (answer k (globbed (Some paths))) w in
  (n, send_files (file_urls fs)) ∈ answers (answer k (globbed (Some paths))) w ∧
  (mkWaiting n i u ∉ waiting w') ∧
  entry_of (state w') i u = Some (mkRepo done (slug e) (Some fs)).
Proof.
  intros (Hsync & He & Hx & _) Hst Hk fs w'. unfold w'.
  destruct (answer_status_exec w k _ (on_listed i u) (globbed (Some paths)) [] i
              (mkUpdate u done None (Some fs)) Hk) as [-> ->]; [done..|].
  assert (entry_of (reduce (state w) (Actions.setRepoStatus (Some i)
            (mkUpdate u done None (Some fs)))) i u = Some (mkRepo done (slug e) (Some fs))) as He'.
  { etrans; [apply (Machine.entry_of_setRepoStatus _ i (mkUpdate u done None (Some fs)))|].
    cbn [url]. rewrite He. cbn. unfold Machine.update_entry. cbn. by rewrite Hst. }
  split_and!; [..|done]; by eapply dispatch_answered.
Qed.

(** * Theorems *)

(** C12: A POST request whose session expires before its clone has ended
    is never answered: once the timer of the session has fired, the
    request keeps waiting whatever timers fire and whatever the clone
    reports afterwards. *)
Theorem expired_post_never_answered config s x handle es :
  x ∈ waiting (world s) →
  pending (timers (world s)) !! handle = Some (Some (waiting_id x)) →
  Forall (λ e, is_request e = false) es →
  x ∈ waiting (world (run (step config) s (ev_fire handle :: es))).
Proof.
  intros Hx Hh Hes. unfold step.
  eapply proj1, (background_run config (stuck x) es (serve_event config s (ev_fire handle)));
    [intros n e; apply stuck_background|done|by apply fire_stuck].
Qed.

(** C13: A URL whose clone has failed cannot be tried again: a POST of it
    is answered 'clone failed' at once and leaves the entry [failed],
    because [startClone] changes only an absent or a [done] entry. *)
Theorem failed_post_fails_again config s now generated cookie i u :
  id cookie = Some i → isGitUrl (Some u) = true →
  Machine.status_of (state (world s)) i u = Some failed →
  let s' := step config s (ev_post now generated cookie (Some u)) in
  (next_request s, send_error "clone failed") ∈ log s' ∧
  Machine.status_of (state (world s')) i u = Some failed.
Proof.
  intros Hid Hu Hst. cbn zeta. unfold step, serve_event. cbn [log world handler].
  set (w1 := exec_ (middleware now generated cookie) (world s)).
  assert (Machine.status_of (state w1) i u = Some failed) as Hst1.
  { unfold w1. rewrite (middleware_exec_known _ _ _ i), setRemovalTimeout_state by done.
    by apply failed_stays. }
  assert (id (result (middleware now generated cookie) (world s)) = Some i) as Hid1
    by by rewrite middleware_result, Hid.
  pose proof (failed_stays _ (Actions.startClone (Some i) u) i u
                ltac:(done) Hst1) as Hst2.
  split.
  - apply elem_of_app. right. unfold handle_post.
    rewrite !answers_bind, !elem_of_app. left. right. left.
    apply (post_answered _ _ i); [done..|]. by apply failed_listener.
  - unfold handle_post, post. rewrite !exec_bind, !exec_ret, Hid1, Hu, exec_bind.
    by rewrite dispatch_state.
Qed.

(** C7: In every state the system reaches, an entry whose clone has begun
    or ended has its slug (and a [done] entry its files), so the change
    handler never takes the branch of [getFiles] without a slug: it never
    reports a status, and so never dispatches, from inside a
    notification. *)
Theorem reachable_never_defers config s :
  reachable (step config) initial_server s →
  entries_ok (state (world s)) ∧ deferred (reactor (world s)) = [] ∧
  ∀ prev, Forall (λ r, is_Some (callback_of r)) (handleChanges (state (world s)) prev).1.
Proof.
  intros [Hstate Hdef]%node_ok_reachable. split_and!; [done..|].
  intros prev. by apply handleChanges_async.
Qed.

(** C17: In no state the system reaches does the listener of a POST
    request throw: a [done] entry has its files, because the only report
    of [done] is that of the callback of [getFiles], which carries them.
    So [repo.get('files').map] is never called on [undefined], and the
    listener sends its answer on every [done] entry. *)
Theorem reachable_never_throws config s i u :
  reachable (step config) initial_server s → ¬ throws (state (world s)) i u.
Proof.
  intros [Hstate _]%node_ok_reachable (repo & (session & Hs & Hr)%bind_Some & Hst & Hfs).
  destruct (proj2 (Hstate i session u repo Hs Hr) Hst) as [fs Hfs']. congruence.
Qed.

(** C16: A clone that meets no obstacle is answered with its files.  In
    every state the system reaches, when a visitor posts a URL that is new
    to their session (or [done]), and then [fs.exists] answers, git exits
    with 0 and [glob] lists the folder, with nothing else in between, the
    POST request is answered with the listed paths, relative to the folder
    of the session and under [/files/]; it waits no longer, and the entry
    is [done] with its slug and files. *)
Theorem clone_answered config s now g cookie u (b : bool) paths :
  reachable (step config) initial_server s → isGitUrl (Some u) = true →
  let i := default g (id cookie) in
  Machine.status_of (state (world s)) i u = None ∨
    Machine.status_of (state (world s)) i u = Some done →
  ∃ k1 k2 k3,
    let s' := run (step config) s
                [ev_post now g cookie (Some u); ev_answer k1 (exists_is b);
                 ev_answer k2 (exited (Some 0%Z)); ev_answer k3 (globbed (Some paths))] in
    let fs := (relative (session_data ++ [i]) <$> paths) in
    (next_request s, send_files (file_urls fs)) ∈ log s' ∧
    (mkWaiting (next_request s) i u ∉ waiting (world s')) ∧
    entry_of (state (world s')) i u = Some (mkRepo done (Some (hash u)) (Some fs)).
Proof.
  intros Hs Hu i Hst.
  pose proof (post_under_way config s now g cookie u Hs Hu Hst) as H1. fold i in H1.
  destruct (under_way_outstanding _ _ _ _ _ _ H1) as [k1 Hk1].
  pose proof (exists_under_way _ k1 _ i u (hash u) b _ _ _ H1 eq_refl Hk1) as H2.
  destruct (under_way_outstanding _ _ _ _ _ _ H2) as [k2 Hk2].
  pose proof (exit_under_way _ k2 _ i u (hash u) _ _ _ H2 eq_refl eq_refl Hk2) as H3.
  destruct (under_way_outstanding _ _ _ _ _ _ H3) as [k3 Hk3].
  destruct (listed_answered _ k3 _ _ i u paths _ _ _ H3 eq_refl Hk3) as (Ha & Hw & He).
  exists k1, k2, k3. cbn zeta. cbn [run foldl]. unfold step at 1.
  cbn [serve_event log world handler].
  split_and!; [apply elem_of_app; right; exact Ha|exact Hw|exact He].
Qed.

End system.

Lemma expired_post_never_answered_witness :
  demo_waiting ∈ waiting (world
    (run (step (Pf:=demo_platform) (W:=demo_web) demo_config) demo_server
       [ev_fire 0; ev_answer 0 (exited (Some 0%Z)); ev_flush])).
Proof.
  apply (expired_post_never_answered (Pf:=demo_platform) (W:=demo_web) demo_config
           demo_server demo_waiting 0);
    [by left|done|repeat constructor].
Defined.

(** ** Runs of the whole system *)

#[local] Existing Instances demo_platform demo_web.

Lemma reachable_never_defers_witness :
  let s := run (step demo_config) initial_server demo_clone in
  entries_ok (state (world s)) ∧ deferred (reactor (world s)) = [] ∧
  ∀ prev, Forall (λ r, is_Some (callback_of r)) (handleChanges (state (world s)) prev).1.
Proof. apply (reachable_never_defers demo_config), reachable_run. Defined.

Lemma failed_post_fails_again_witness :
  let s := run (step demo_config) initial_server
             [demo_post; ev_answer 1 (exists_is false); ev_answer 2 (exited (Some 1%Z))] in
  let s' := step demo_config s (ev_post 2000 "s9" (mkCookie (Some "s1") None) (Some demo_url)) in
  (next_request s, send_error "clone failed") ∈ log s' ∧
  Machine.status_of (state (world s')) "s1" demo_url = Some failed.
Proof. intros s. by apply failed_post_fails_again. Defined.

Lemma reachable_never_throws_witness :
  ¬ throws (state (world (run (step demo_config) initial_server demo_clone))) "s1" demo_url.
Proof. apply (reachable_never_throws demo_config), reachable_run. Defined.

(** A new visitor posts a URL; the folder does not exist, the clone
    succeeds, the folder holds one file. *)
Lemma clone_answered_witness :
  ∃ k1 k2 k3,
    let s' := run (step demo_config) initial_server
                [demo_post; ev_answer k1 (exists_is false);
                 ev_answer k2 (exited (Some 0%Z));
                 ev_answer k3 (globbed (Some [["session_data"; "s1"; "da39a3e"; "README"]]))] in
    let fs := (relative (session_data ++ ["s1"]) <$>
                 [["session_data"; "s1"; "da39a3e"; "README"]]) in
    (0, send_files (file_urls fs)) ∈ log s' ∧
    (mkWaiting 0 "s1" demo_url ∉ waiting (world s')) ∧
    entry_of (state (world s')) "s1" demo_url =
      Some (mkRepo done (Some (hash demo_url)) (Some fs)).
Proof.
  apply (clone_answered demo_config initial_server 1000 "s1" (mkCookie None None) demo_url
           false [["session_data"; "s1"; "da39a3e"; "README"]]);
    [apply reachable_init|done|by left].
Defined.

End System.
